(** * path_finding_node: the replanning node of the socially-aware walker

    A shallow embedding of
    [catkin_ws/src/control/path_finding/src/path_finding_node.cpp]
    (class [AstarPathfindingNode]) and the properties of its cost kernel,
    safety predicates, subgoal generator and decision cycle.

    Conventions of the embedding.
    - A C++ [double] is an exact rational ([Q]); rounding error of the
      floating-point unit is not part of the model.  [std::sin], [std::cos]
      and [std::hypot] are parameters of the development.  The one division
      whose divisor can be 0, in the score of [generate_subgoal], yields an
      infinity or a NaN there and is modelled by the type [Score].
    - A C++ [int] is an integer ([Z]); [/] and [%] on [int] are [Z.quot] and
      [Z.rem] (truncation towards zero).  Signed overflow is undefined in C++
      and outside the model.
    - Reading [std::vector::operator[]] outside the vector is undefined
      behaviour: every function that may do so returns [option], and [None]
      stands for that undefined behaviour.
    - Smart pointers that may be null are [option]. *)

From Stdlib Require Import ZArith QArith Qround Qabs List Bool String Lia Lqa.
Import ListNotations.

Local Open Scope Z_scope.

(** ** Numbers *)

(** [a > b], [a >= b], [a < b] and [a <= b] on doubles. *)
Definition Qgtb (a b : Q) : bool := negb (Qle_bool a b).
Definition Qgeb (a b : Q) : bool := Qle_bool b a.
Definition Qltb (a b : Q) : bool := negb (Qle_bool b a).
Definition Qleb (a b : Q) : bool := Qle_bool a b.

(** [int(x)] for a double [x]: truncation towards zero. *)
Definition Qtrunc (x : Q) : Z := Z.quot (Qnum x) (Zpos (Qden x)).

(** [std::round]: to the nearest integer, halves away from zero. *)
Definition Qround (x : Q) : Z :=
  if Qle_bool 0 x then Qfloor (x + (1 # 2)) else Qceiling (x - (1 # 2)).

(** The integers [lo, lo+1, ..., hi] of a [for (int k = lo; k <= hi; k++)]. *)
Definition Zrange (lo hi : Z) : list Z :=
  map (fun k => lo + Z.of_nat k) (seq 0 (Z.to_nat (hi - lo + 1))).

(** The integers [hi, hi-1, ..., lo] of a [for (int k = hi; k >= lo; k--)]. *)
Definition Zrange_down (hi lo : Z) : list Z :=
  map (fun k => hi - Z.of_nat k) (seq 0 (Z.to_nat (hi - lo + 1))).

(** ** Undefined behaviour as [option] *)

Definition bind {A B : Type} (x : option A) (f : A -> option B) : option B :=
  match x with
  | Some a => f a
  | None => None
  end.

Declare Scope ub_scope.
Delimit Scope ub_scope with ub.
Notation "x <- c ;; k" := (bind c (fun x => k))
  (at level 61, c at next level, right associativity) : ub_scope.
Local Open Scope ub_scope.

(** ** Messages *)

(** [geometry_msgs::Point] and [tf::Vector3] (the conversions
    [pointMsgToTF] and [pointTFToMsg] copy the three coordinates). *)
Record Point : Type := mkPoint { px : Q; py : Q; pz : Q }.

(** A default-constructed [geometry_msgs::Point]. *)
Definition Point_zero : Point := mkPoint 0 0 0.

(** [ros::Time] and [ros::Duration], in nanoseconds. *)
Definition Time : Type := Z.
Definition Time_zero : Time := 0.

(** [nav_msgs::OccupancyGrid]: [info.resolution], [info.origin.position],
    [info.width], [info.height] and the row-major [data]. *)
Record Map : Type := mkMap {
  resolution : Q;
  origin_x : Q;
  origin_y : Q;
  width : Z;
  height : Z;
  data : list Z
}.

(** The grid carries one cell per (column, row). *)
Definition wf_map (m : Map) : Prop :=
  0 <= width m /\ 0 <= height m /\
  Z.of_nat (List.length (data m)) = width m * height m.

(** [map->data[idx]]. *)
Definition data_at (m : Map) (idx : Z) : option Z :=
  if idx <? 0 then None else nth_error (data m) (Z.to_nat idx).

(** [nav_msgs::Path]: [header.stamp], [header.frame_id] and the positions of
    [poses] (orientations are never read or written by the node). *)
Record Path : Type := mkPath {
  stamp : Time;
  frame_id : string;
  poses : list Point
}.

(** [tf::Matrix3x3] by rows and [tf::Transform]. *)
Record Matrix3x3 : Type := mkMatrix { row0 : Point; row1 : Point; row2 : Point }.
Record Transform : Type := mkTransform { basis : Matrix3x3; origin : Point }.

Definition dot (a b : Point) : Q :=
  (px a * px b + py a * py b + pz a * pz b)%Q.

Definition mat_apply (m : Matrix3x3) (v : Point) : Point :=
  mkPoint (dot (row0 m) v) (dot (row1 m) v) (dot (row2 m) v).

Definition vec_add (a b : Point) : Point :=
  mkPoint (px a + px b)%Q (py a + py b)%Q (pz a + pz b)%Q.

Definition vec_neg (a : Point) : Point :=
  mkPoint (- px a)%Q (- py a)%Q (- pz a)%Q.

Definition transpose (m : Matrix3x3) : Matrix3x3 :=
  mkMatrix (mkPoint (px (row0 m)) (px (row1 m)) (px (row2 m)))
           (mkPoint (py (row0 m)) (py (row1 m)) (py (row2 m)))
           (mkPoint (pz (row0 m)) (pz (row1 m)) (pz (row2 m))).

(** [tf::Transform::operator*(const Vector3&)]. *)
Definition tf_apply (t : Transform) (v : Point) : Point :=
  vec_add (mat_apply (basis t) v) (origin t).

(** [tf::Transform::inverse()]. *)
Definition tf_inverse (t : Transform) : Transform :=
  let inv := transpose (basis t) in
  mkTransform inv (mat_apply inv (vec_neg (origin t))).

(** ** Constants *)

Definition kMaxLateralDisRobot2TrackedPt : Q := 6 # 10.
Definition kThresPercentageOfArrival : Q := 7 # 10.
Definition kThresObstacleDangerCost : Z := 80.

(** ** The local cost kernel *)

(** [kernel_size] of the two window scans: [int(std::floor(radius /
    map_resolution))], plus one when even. *)
Definition kernel_size (radius : Q) (m : Map) : Z :=
  let k := Qfloor (radius / resolution m) in
  k + (if Z.rem k 2 =? 0 then 1 else 0).

Definition kernel_bound (radius : Q) (m : Map) : Z :=
  Z.quot (kernel_size radius m) 2.

Definition max_map_idx (m : Map) : Z := width m * height m - 1.

(** State of a window scan: the indices at which [data] has been read so far
    (most recent first) and the running [cost]. *)
Record Scan : Type := mkScan { reads : list Z; cost : option Z }.

(** The two nested [for] loops over [y] and [x] in [-bound .. bound]. *)
Definition for_window {S : Type} (bound : Z) (body : Z -> Z -> S -> S) (s : S) : S :=
  fold_left
    (fun s y => fold_left (fun s x => body y x s) (Zrange (- bound) bound) s)
    (Zrange (- bound) bound) s.

(** The two [continue] tests shared by both scans. *)
Definition skip_cell (m : Map) (bound target_idx op_idx : Z) : bool :=
  if (op_idx <? 0) || (op_idx >? max_map_idx m) then true
  else Z.abs (Z.rem op_idx (width m) - Z.rem target_idx (width m)) >? bound.

(** Body of the loops of [get_local_max_cost]. *)
Definition max_cost_body (m : Map) (bound target_idx : Z) (y x : Z) (s : Scan) : Scan :=
  let op_idx := target_idx + x + width m * y in
  if skip_cell m bound target_idx op_idx then s
  else
    mkScan (op_idx :: reads s)
           (c <- cost s ;;
            v <- data_at m op_idx ;;
            Some (if v >? c then v else c)).

Definition get_local_max_cost_scan (m : Map) (target_idx : Z) : Scan :=
  for_window (kernel_bound (6 # 10) m)
             (max_cost_body m (kernel_bound (6 # 10) m) target_idx)
             (mkScan [] (Some 0)).

Definition get_local_max_cost (m : Map) (target_idx : Z) : option Z :=
  cost (get_local_max_cost_scan m target_idx).

(** Body of the loops of [get_local_avg_cost]. *)
Definition avg_cost_body (m : Map) (bound target_idx : Z) (y x : Z) (s : Scan) : Scan :=
  let op_idx := target_idx + x + width m * y in
  if skip_cell m bound target_idx op_idx then s
  else
    mkScan (op_idx :: reads s)
           (c <- cost s ;;
            v <- data_at m op_idx ;;
            Some (c + v)).

Definition get_local_avg_cost_scan (m : Map) (target_idx : Z) : Scan :=
  for_window (kernel_bound 1 m)
             (avg_cost_body m (kernel_bound 1 m) target_idx)
             (mkScan [] (Some 0)).

Definition get_local_avg_cost (m : Map) (target_idx : Z) : option Z :=
  c <- cost (get_local_avg_cost_scan m target_idx) ;;
  Some (Z.quot c (kernel_size 1 m * kernel_size 1 m)).

(** ** Safety predicates that need no external code *)

(** The three lines that rasterise a robot-frame point:
    [map_x = std::round((x - map_origin_x) / map_resolution)], the same for
    [map_y], and [idx = map_y * map_width + map_x]. *)
Definition point_idx (m : Map) (v : Point) : Z :=
  let map_x := Qround ((px v - origin_x m) / resolution m) in
  let map_y := Qround ((py v - origin_y m) / resolution m) in
  map_y * width m + map_x.

(** [get_local_max_cost(map, idx) >= kThresObstacleDangerCost ||
    map->data[idx] < 0], with the short circuit of [||]. *)
Definition cell_unsafe (m : Map) (idx : Z) : option bool :=
  c <- get_local_max_cost m idx ;;
  if c >=? kThresObstacleDangerCost then Some true
  else v <- data_at m idx ;; Some (v <? 0).

Definition is_subgoal_safe (m : Map) (path_ptr : option Path)
    (tf_odom2base : Transform) : option bool :=
  match path_ptr with
  | None => Some false
  | Some path =>
      match poses path with
      | [] => Some false
      | vec_raw :: _ =>
          let vec_transformed := tf_apply tf_odom2base vec_raw in
          u <- cell_unsafe m (point_idx m vec_transformed) ;;
          Some (negb u)
      end
  end.

(** The [for] loop of [is_path_safe]. *)
Fixpoint is_path_safe_loop (m : Map) (tf_odom2base : Transform)
    (it : list Point) : option bool :=
  match it with
  | [] => Some true
  | vec_raw :: rest =>
      let vec_transformed := tf_apply tf_odom2base vec_raw in
      u <- cell_unsafe m (point_idx m vec_transformed) ;;
      if u then Some false else is_path_safe_loop m tf_odom2base rest
  end.

Definition is_path_safe (m : Map) (path_ptr : option Path)
    (tf_odom2base : Transform) : option bool :=
  match path_ptr with
  | None => Some false
  | Some path =>
      match poses path with
      | [] => Some false
      | _ :: _ => is_path_safe_loop m tf_odom2base (poses path)
      end
  end.

(** [now] is the value of [ros::Time::now()] at the call. *)
Definition is_path_deprecated (now : Time) (path_ptr : option Path) : bool :=
  match path_ptr with
  | None => true
  | Some path =>
      match poses path with
      | [] => true
      | _ :: _ => now - stamp path >? 5000000000
      end
  end.

(** [path_ptr->poses.size() * (0.99 - tracking_progress_percentage)]
    converted to [int]. *)
Definition tracking_idx (size : nat) (tracking_progress_percentage : Q) : Z :=
  Qtrunc (inject_Z (Z.of_nat size) * ((99 # 100) - tracking_progress_percentage)).

(** [poses[target_idx]]. *)
Definition poses_at (path : Path) (idx : Z) : option Point :=
  if idx <? 0 then None else nth_error (poses path) (Z.to_nat idx).

Definition is_robot_following_path (path_ptr : option Path)
    (tracking_progress_percentage : Q) (tf_odom2base : Transform) : option bool :=
  match path_ptr with
  | None => Some false
  | Some path =>
      if (List.length (poses path) <? 1)%nat then Some false
      else
        let target_idx :=
          tracking_idx (List.length (poses path)) tracking_progress_percentage in
        tracking_point <- poses_at path target_idx ;;
        let tracking_pt_baseframe := tf_apply tf_odom2base tracking_point in
        if Qgeb (Qabs (py tracking_pt_baseframe)) kMaxLateralDisRobot2TrackedPt
        then Some false else Some true
  end.

(** The [while] loop of [approach_unsafe_subgoal]. *)
Fixpoint approach_unsafe_subgoal_loop (m : Map) (tf_odom2base : Transform)
    (it : list Point) : option Point :=
  match it with
  | [] => Some Point_zero
  | vec_odom_frame :: rest =>
      let vec_base_frame := tf_apply tf_odom2base vec_odom_frame in
      u <- cell_unsafe m (point_idx m vec_base_frame) ;;
      if u then approach_unsafe_subgoal_loop m tf_odom2base rest
      else Some vec_base_frame
  end.

Definition approach_unsafe_subgoal (m : Map) (path_ptr : option Path)
    (tf_odom2base : Transform) : option Point :=
  match path_ptr with
  | None => Some Point_zero
  | Some path =>
      match poses path with
      | [] => Some Point_zero
      | _ :: _ => approach_unsafe_subgoal_loop m tf_odom2base (poses path)
      end
  end.

(** The caller's test [subgoal_pt.x == 0 && subgoal_pt.y == 0]. *)
Definition is_sentinel (subgoal_pt : Point) : bool :=
  Qeq_bool (px subgoal_pt) 0 && Qeq_bool (py subgoal_pt) 0.

(** ** [std::max_element] and [argmax] *)

Fixpoint max_element_from (largest : nat) (largest_val : Q) (first : nat)
    (l : list Q) : nat :=
  match l with
  | [] => largest
  | x :: rest =>
      if Qltb largest_val x then max_element_from first x (S first) rest
      else max_element_from largest largest_val (S first) rest
  end.

Definition argmax (l : list Q) : nat :=
  match l with
  | [] => 0%nat
  | x :: rest => max_element_from 0 x 1 rest
  end.

(** ** Node parameters, markers and footprints *)

(** The ROS parameters read by the constructor. *)
Record Params : Type := mkParams {
  solver_timeout_ms_ : Q;
  subgoal_timer_interval_ : Q;
  path_start_offsetx_ : Q;
  path_start_offsety_ : Q;
  flag_infinity_traval_ : bool;
  path_frame_id_ : string
}.

Definition default_params : Params :=
  mkParams 40 (1 # 2) (44 # 100) 0 false "odom".

(** The markers of one published [MarkerArray]: a score text per ray, the
    line list [mkr_subgoal_candidate_] and the sphere [mrk_subgoal_]. *)
Inductive Marker : Type :=
| Mkr_candidate_score (id : Z) (position : Point) (text : Q)
| Mkr_subgoal_candidate (points : list Point)
| Mrk_subgoal (position : Point).

Record Footprint : Type := mkFootprint {
  footprint_stamp : Time;
  footprint_points : list Point
}.

Definition M_PI : Q := 314159265358979323846 # 100000000000000000000.

(** ** Code that depends on external functions *)

Section Node.

(** [std::sin], [std::cos] and [std::hypot] of the C library. *)
Variable sin : Q -> Q.
Variable cos : Q -> Q.
Variable hypot : Q -> Q -> Q.

(** [localmap_utils::GetFootprintCells] ([localmap_utils.hpp]). *)
Variable GetFootprintCells : option Footprint -> Map -> list (Z * Z).

(** [astar::Solver::FindPathByHashmap] ([a_star.hpp]): the success flag and
    the path object it leaves behind the pointer it was given. *)
Variable FindPathByHashmap : Map -> Path -> Z -> Z -> Q -> bool * Path.

(** The [for] loop of [is_footprint_safe]. *)
Fixpoint is_footprint_safe_loop (m : Map) (footprint_cells : list (Z * Z))
    : option bool :=
  match footprint_cells with
  | [] => Some true
  | cell :: rest =>
      let idx := snd cell * width m + fst cell in
      v <- data_at m idx ;;
      if (v >=? kThresObstacleDangerCost) || (v <? 0) then Some false
      else is_footprint_safe_loop m rest
  end.

Definition is_footprint_safe (m : Map) (footprint_ptr : option Footprint)
    : option bool :=
  is_footprint_safe_loop m (GetFootprintCells footprint_ptr m).

(** *** The radial search of [generate_subgoal] *)

Definition prefer_subgoal_distance : Q := 8.
Definition distance_resolution : Q := 6 # 10.
Definition max_distance_idx : Z :=
  Qround (prefer_subgoal_distance / distance_resolution)%Q.

Definition theta_from_yaxis (i : Z) : Q := (M_PI / 18 * inject_Z i)%Q.

(** The cell sampled on ray [i] at distance step [j]. *)
Definition sample_idx (cfg : Params) (m : Map) (i j : Z) : Z :=
  let tmp_dis := (distance_resolution * inject_Z j)%Q in
  let map_x :=
    Qround ((tmp_dis * sin (theta_from_yaxis i) - origin_x m
             + path_start_offsetx_ cfg) / resolution m)%Q in
  let map_y :=
    Qround ((tmp_dis * cos (theta_from_yaxis i) - origin_y m
             + path_start_offsety_ cfg) / resolution m)%Q in
  map_y * width m + map_x.

(** [dis_subgoal2finalgoal] of the candidate on ray [i] at step [j]. *)
Definition dis_subgoal2finalgoal (cfg : Params) (vec_goal_base_frame : Point)
    (i j : Z) : Q :=
  let tmp_dis := (distance_resolution * inject_Z j)%Q in
  hypot (tmp_dis * sin (theta_from_yaxis i) + path_start_offsetx_ cfg
         - px vec_goal_base_frame)%Q
        (tmp_dis * cos (theta_from_yaxis i) + path_start_offsety_ cfg
         - py vec_goal_base_frame)%Q.

(** The expression
    [(1.0 - obstacle_cost / 100.0) + (1.0 - dis_subgoal2finalgoal / dis_base2goal / 2)]
    for a divisor [dis_base2goal] other than 0. *)
Definition score_value (cfg : Params) (vec_goal_base_frame : Point)
    (dis_base2goal : Q) (i j : Z) (obstacle_cost : Z) : Q :=
  ((1 - inject_Z obstacle_cost / 100)
   + (1 - dis_subgoal2finalgoal cfg vec_goal_base_frame i j
          / dis_base2goal / 2))%Q.

(** The [double score]: a number, or what the division by a zero
    [dis_base2goal] makes of it. *)
Inductive Score : Type :=
| Finite (score : Q)
| Minus_infinity
| Not_a_number.

(** The score of the candidate on ray [i] at step [j] whose sampled cost is
    [obstacle_cost]. The divisor [dis_base2goal] is not tested: when it is
    0 (the goal is at the robot), the quotient of [dis_subgoal2finalgoal], a
    result of [std::hypot] and so never negative, is NaN for a zero
    numerator and +infinity otherwise, and the score is NaN or -infinity. *)
Definition candidate_score (cfg : Params) (vec_goal_base_frame : Point)
    (dis_base2goal : Q) (i j : Z) (obstacle_cost : Z) : Score :=
  if Qeq_bool dis_base2goal 0 then
    if Qeq_bool (dis_subgoal2finalgoal cfg vec_goal_base_frame i j) 0
    then Not_a_number
    else Minus_infinity
  else
    Finite (score_value cfg vec_goal_base_frame dis_base2goal i j obstacle_cost).

(** The inner [for (j ...)] loop on the steps [js] still to visit;
    [max_j_score] and [candidate_j] are the running [max_j_score] and
    [candidate_j_list[16 - i]].  [break] ends the loop with the running
    values.  [score > max_j_score] is false for a score that is -infinity
    or NaN. *)
Fixpoint ray_loop (cfg : Params) (m : Map) (vec_goal_base_frame : Point)
    (dis_base2goal : Q) (i : Z) (js : list Z) (max_j_score : Q)
    (candidate_j : Z) : option (Q * Z) :=
  match js with
  | [] => Some (max_j_score, candidate_j)
  | j :: rest =>
      let idx := sample_idx cfg m i j in
      obstacle_cost <- get_local_max_cost m idx ;;
      if obstacle_cost >? kThresObstacleDangerCost
      then Some (max_j_score, candidate_j)
      else
        v <- data_at m idx ;;
        if v =? -1 then Some (max_j_score, candidate_j)
        else
          match candidate_score cfg vec_goal_base_frame dis_base2goal i j
                                obstacle_cost with
          | Finite score =>
              if Qgtb score max_j_score
              then ray_loop cfg m vec_goal_base_frame dis_base2goal i rest
                            score j
              else ray_loop cfg m vec_goal_base_frame dis_base2goal i rest
                            max_j_score candidate_j
          | Minus_infinity | Not_a_number =>
              ray_loop cfg m vec_goal_base_frame dis_base2goal i rest
                       max_j_score candidate_j
          end
  end.

(** One iteration of the outer loop up to [candidate_score_list.push_back]:
    the ray's [max_j_score] and its [candidate_j_list[16 - i]]. *)
Definition ray (cfg : Params) (m : Map) (vec_goal_base_frame : Point)
    (dis_base2goal : Q) (i : Z) : option (Q * Z) :=
  ray_loop cfg m vec_goal_base_frame dis_base2goal i
           (Zrange 3 max_distance_idx) 0 0.

(** The end point pushed for ray [i] when its recorded step is
    [candidate_j]. *)
Definition ray_point (cfg : Params) (i candidate_j : Z) : Point :=
  let tmp_dis := (distance_resolution * inject_Z candidate_j)%Q in
  mkPoint (path_start_offsetx_ cfg + tmp_dis * sin (theta_from_yaxis i))%Q
          (path_start_offsety_ cfg + tmp_dis * cos (theta_from_yaxis i))%Q
          0.

(** What the outer loop has built so far. *)
Record Search : Type := mkSearch {
  candidate_score_list : list Q;
  candidate_points : list Point;
  score_markers : list Marker
}.

(** Body of the outer [for (i ...)] loop. *)
Definition search_body (cfg : Params) (m : Map) (vec_goal_base_frame : Point)
    (dis_base2goal : Q) (acc : option Search) (i : Z) : option Search :=
  s <- acc ;;
  r <- ray cfg m vec_goal_base_frame dis_base2goal i ;;
  let max_j_score := fst r in
  let pt := ray_point cfg i (snd r) in
  Some (mkSearch
          (candidate_score_list s ++ [max_j_score])
          (candidate_points s
             ++ [mkPoint (path_start_offsetx_ cfg) (path_start_offsety_ cfg) 0; pt])
          (score_markers s
             ++ [Mkr_candidate_score i (mkPoint (px pt) (py pt) (8 # 10))
                                     max_j_score])).

Definition radial_search (cfg : Params) (m : Map) (vec_goal_base_frame : Point)
    (dis_base2goal : Q) : option Search :=
  fold_left (search_body cfg m vec_goal_base_frame dis_base2goal)
            (Zrange_down 16 2) (Some (mkSearch [] [] [])).

(** The test [If finalgoal is out of localmap range]. *)
Definition goal_out_of_range (m : Map) (vec_goal_base_frame : Point) : bool :=
  (Qtrunc ((px vec_goal_base_frame - origin_x m) / resolution m)%Q >=? width m)
  || (Qtrunc ((py vec_goal_base_frame - origin_y m) / resolution m)%Q >=? height m).

(** [generate_subgoal]: the returned point and the published marker array. *)
Definition generate_subgoal (cfg : Params) (m : Map) (finalgoal : Point)
    (tf_base2odom : Transform) : option (Point * list Marker) :=
  let tf_odom2base := tf_inverse tf_base2odom in
  let vec_goal_base_frame := tf_apply tf_odom2base finalgoal in
  let dis_base2goal :=
    hypot (px vec_goal_base_frame) (py vec_goal_base_frame) in
  if goal_out_of_range m vec_goal_base_frame then
    s <- radial_search cfg m vec_goal_base_frame dis_base2goal ;;
    let index := argmax (candidate_score_list s) in
    subgoal_pt <- nth_error (candidate_points s) (index * 2 + 1)%nat ;;
    let vec_odom_frame := tf_apply tf_base2odom subgoal_pt in
    Some (subgoal_pt,
          score_markers s
            ++ [Mkr_subgoal_candidate (candidate_points s);
                Mrk_subgoal vec_odom_frame])
  else
    Some (vec_goal_base_frame, [Mrk_subgoal finalgoal]).

(** *** The node and its callbacks *)

(** The member fields that the callbacks read and write. *)
Record Node : Type := mkNode {
  localmap_ptr_ : option Map;
  walkable_path_ptr_ : option Path;
  footprint_ptr_ : option Footprint;
  finalgoal_ptr_ : option Point;
  tracking_progress_percentage_ : Q;
  flag_planning_busy_ : bool
}.

(** The fields as the constructor leaves them. *)
Definition Node_init : Node := mkNode None None None None 0 false.

Definition set_localmap (v : option Map) (s : Node) : Node :=
  mkNode v (walkable_path_ptr_ s) (footprint_ptr_ s) (finalgoal_ptr_ s)
         (tracking_progress_percentage_ s) (flag_planning_busy_ s).
Definition set_walkable_path (v : option Path) (s : Node) : Node :=
  mkNode (localmap_ptr_ s) v (footprint_ptr_ s) (finalgoal_ptr_ s)
         (tracking_progress_percentage_ s) (flag_planning_busy_ s).
Definition set_footprint (v : option Footprint) (s : Node) : Node :=
  mkNode (localmap_ptr_ s) (walkable_path_ptr_ s) v (finalgoal_ptr_ s)
         (tracking_progress_percentage_ s) (flag_planning_busy_ s).
Definition set_finalgoal (v : option Point) (s : Node) : Node :=
  mkNode (localmap_ptr_ s) (walkable_path_ptr_ s) (footprint_ptr_ s) v
         (tracking_progress_percentage_ s) (flag_planning_busy_ s).
Definition set_progress (v : Q) (s : Node) : Node :=
  mkNode (localmap_ptr_ s) (walkable_path_ptr_ s) (footprint_ptr_ s)
         (finalgoal_ptr_ s) v (flag_planning_busy_ s).
Definition set_busy (v : bool) (s : Node) : Node :=
  mkNode (localmap_ptr_ s) (walkable_path_ptr_ s) (footprint_ptr_ s)
         (finalgoal_ptr_ s) (tracking_progress_percentage_ s) v.

(** What a callback does, in order: every assignment to a member field (with
    the node as it is after the assignment), every message published and
    every call of the solver. *)
Inductive Event : Type :=
| Assign (after : Node)
| Publish_walkable_path (path : Path)
| Publish_marker_array (markers : list Marker)
| Publish_robot_status (text : string)
| Call_solver (origin_idx target_idx : Z).

(** A callback: from the node before to [None] (undefined behaviour) or to
    its result, the node after and the events in order. *)
Definition Cb (A : Type) : Type := Node -> option (A * Node * list Event).

Definition ret {A : Type} (a : A) : Cb A := fun s => Some (a, s, []).

Definition seq_cb {A B : Type} (c : Cb A) (k : A -> Cb B) : Cb B :=
  fun s =>
    match c s with
    | None => None
    | Some (a, s1, t1) =>
        match k a s1 with
        | None => None
        | Some (b, s2, t2) => Some (b, s2, t1 ++ t2)
        end
    end.

Definition get : Cb Node := fun s => Some (s, s, []).
Definition assign (f : Node -> Node) : Cb unit :=
  fun s => Some (tt, f s, [Assign (f s)]).
Definition emit (e : Event) : Cb unit := fun s => Some (tt, s, [e]).
Definition undefined {A : Type} : Cb A := fun _ => None.
Definition lift {A : Type} (o : option A) : Cb A :=
  fun s => match o with Some a => Some (a, s, []) | None => None end.

Declare Scope cb_scope.
Delimit Scope cb_scope with cb.
Notation "x <~ c ;; k" := (seq_cb c (fun x => k))
  (at level 61, c at next level, right associativity) : cb_scope.
Notation "c ;;; k" := (seq_cb c (fun _ => k))
  (at level 61, right associativity) : cb_scope.
Local Open Scope cb_scope.

Definition node_of {A : Type} (r : A * Node * list Event) : Node := snd (fst r).
Definition events_of {A : Type} (r : A * Node * list Event) : list Event := snd r.

(** What the environment answers during one callback: the transform that
    [lookupTransform] leaves in [tf_base2odom], [ros::Time::now()] as read by
    [is_path_deprecated], and [ros::Time::now()] as read when a path is
    stamped. *)
Record Env : Type := mkEnv {
  tf_base2odom_ : Transform;
  now_check : Time;
  now_stamp : Time
}.

Definition with_stamp (t : Time) (p : Path) : Path :=
  mkPath t (frame_id p) (poses p).
Definition with_poses (l : list Point) (p : Path) : Path :=
  mkPath (stamp p) (frame_id p) l.

Definition empty_path (cfg : Params) : Path :=
  mkPath Time_zero (path_frame_id_ cfg) [].

Definition publish_robot_status_marker (str_message : string) : Cb unit :=
  emit (Publish_robot_status str_message).

(** [generate_subgoal] as a member function: it publishes its markers. *)
Definition generate_subgoal_cb (cfg : Params) (m : Map) (finalgoal : Point)
    (tf_base2odom : Transform) : Cb Point :=
  r <~ lift (generate_subgoal cfg m finalgoal tf_base2odom) ;;
  emit (Publish_marker_array (snd r)) ;;;
  ret (fst r).

(** [origin_idx] and [target_idx] of the planning request. *)
Definition origin_idx_of (cfg : Params) (m : Map) : Z :=
  Qround ((- origin_y m + path_start_offsety_ cfg) / resolution m) * width m
  + Qround ((- origin_x m + path_start_offsetx_ cfg) / resolution m).

(** The common tail of both decision cycles, from
    [walkable_path_ptr_ = nav_msgs::Path::Ptr(new nav_msgs::Path())] to the
    call of the solver; returns the success flag. *)
Definition plan_path (cfg : Params) (m : Map) (subgoal_pt : Point) : Cb bool :=
  assign (set_walkable_path (Some (mkPath Time_zero EmptyString []))) ;;;
  assign (set_walkable_path (Some (mkPath Time_zero (path_frame_id_ cfg) []))) ;;;
  let origin_idx := origin_idx_of cfg m in
  let target_idx := point_idx m subgoal_pt in
  emit (Call_solver origin_idx target_idx) ;;;
  let r := FindPathByHashmap m (mkPath Time_zero (path_frame_id_ cfg) [])
                             origin_idx target_idx (solver_timeout_ms_ cfg) in
  assign (set_walkable_path (Some (snd r))) ;;;
  ret (fst r).

(** Publishing [walkable_path_ptr_]. *)
Definition publish_walkable_path_ptr : Cb unit :=
  s <~ get ;;
  match walkable_path_ptr_ s with
  | Some p => emit (Publish_walkable_path p)
  | None => undefined
  end.

(** Writing through [walkable_path_ptr_]. *)
Definition update_walkable_path (f : Path -> Path) : Cb unit :=
  s <~ get ;;
  match walkable_path_ptr_ s with
  | Some p => assign (set_walkable_path (Some (f p)))
  | None => undefined
  end.

(** The loop that converts the found path from [base_link] to the path
    frame, then the stamp and the publication. *)
Definition publish_found_path (env : Env) : Cb unit :=
  update_walkable_path
    (fun p => with_poses (map (tf_apply (tf_base2odom_ env)) (poses p)) p) ;;;
  update_walkable_path (with_stamp (now_stamp env)) ;;;
  publish_walkable_path_ptr.

Definition localmap_cb (map_msg_ptr : Map) : Cb unit :=
  s <~ get ;;
  if negb (flag_planning_busy_ s)
  then assign (set_localmap (Some map_msg_ptr))
  else ret tt.

Definition footprint_cb (footprint_msg_ptr : Footprint) : Cb unit :=
  assign (set_footprint (Some footprint_msg_ptr)).

Definition progress_cb (data : Q) : Cb unit :=
  assign (set_progress data).

Definition finalgoal_cb (cfg : Params) (env : Env) (goal_msg_ptr : Point) : Cb unit :=
  assign (set_busy true) ;;;
  assign (set_finalgoal (Some goal_msg_ptr)) ;;;
  let tf_base2odom := tf_base2odom_ env in
  s <~ get ;;
  footprint_ok <~
    match localmap_ptr_ s with
    | None => ret false
    | Some m => lift (is_footprint_safe m (footprint_ptr_ s))
    end ;;
  match localmap_ptr_ s, footprint_ok with
  | Some m, true =>
      subgoal_pt <~ generate_subgoal_cb cfg m goal_msg_ptr tf_base2odom ;;
      flag_success <~ plan_path cfg m subgoal_pt ;;
      if flag_success then publish_found_path env
      else
        publish_robot_status_marker
          "timeout for path planning to finalgoal, skip this finalgoal assignment." ;;;
        assign (set_finalgoal None) ;;;
        update_walkable_path (with_stamp (now_stamp env)) ;;;
        publish_walkable_path_ptr
  | _, _ =>
      publish_robot_status_marker
        "Empty localmap or unsafe footprint, skip finalgoal assignment."
  end ;;;
  assign (set_busy false).

(** The subgoal chosen in the last [else] of [timer_cb], by situation. *)
Definition timer_choose_subgoal (cfg : Params) (env : Env) (m : Map)
    (finalgoal : Point)
    (flag_subgoal_safe flag_path_safe flag_path_deprecated
     flag_robot_following_path : bool) : Cb Point :=
  let tf_base2odom := tf_base2odom_ env in
  let tf_odom2base := tf_inverse tf_base2odom in
  s <~ get ;;
  if Qgeb (tracking_progress_percentage_ s) kThresPercentageOfArrival then
    pt <~ generate_subgoal_cb cfg m finalgoal tf_base2odom ;;
    publish_robot_status_marker "subgoal arrival, generate new subgoal" ;;;
    ret pt
  else
    match walkable_path_ptr_ s with
    | Some path =>
        if negb flag_subgoal_safe then
          pt <~ lift (approach_unsafe_subgoal m (walkable_path_ptr_ s)
                                              tf_odom2base) ;;
          if is_sentinel pt then
            pt' <~ generate_subgoal_cb cfg m finalgoal tf_base2odom ;;
            publish_robot_status_marker "new subgoal is generated" ;;;
            ret pt'
          else
            publish_robot_status_marker "approach unsafe subgoal" ;;;
            ret pt
        else if negb flag_path_safe || flag_path_deprecated then
          match poses path with
          | [] => undefined
          | vec_raw :: _ =>
              let vec_transformed := tf_apply tf_odom2base vec_raw in
              (if negb flag_path_safe
               then publish_robot_status_marker "old path is not safe"
               else publish_robot_status_marker "subgoal is too old") ;;;
              ret vec_transformed
          end
        else if negb flag_robot_following_path then
          pt <~ generate_subgoal_cb cfg m finalgoal tf_base2odom ;;
          publish_robot_status_marker "robot is not on the path" ;;;
          ret pt
        else generate_subgoal_cb cfg m finalgoal tf_base2odom
    | None => generate_subgoal_cb cfg m finalgoal tf_base2odom
    end.

(** The last [else] of [timer_cb]: choose the subgoal, plan, publish. *)
Definition timer_replan (cfg : Params) (env : Env) (m : Map) (finalgoal : Point)
    (flag_subgoal_safe flag_path_safe flag_path_deprecated
     flag_robot_following_path : bool) : Cb unit :=
  subgoal_pt <~
    timer_choose_subgoal cfg env m finalgoal flag_subgoal_safe flag_path_safe
                         flag_path_deprecated flag_robot_following_path ;;
  flag_success <~ plan_path cfg m subgoal_pt ;;
  if flag_success then publish_found_path env
  else publish_walkable_path_ptr.

Definition timer_cb (cfg : Params) (env : Env) : Cb unit :=
  s <~ get ;;
  if flag_planning_busy_ s then ret tt
  else
    assign (set_busy true) ;;;
    match localmap_ptr_ s, finalgoal_ptr_ s with
    | None, _ => assign (set_busy false)
    | Some _, None => assign (set_busy false)
    | Some m, Some finalgoal =>
        let map_resolution := resolution m in
        let tf_base2odom := tf_base2odom_ env in
        let tf_odom2base := tf_inverse tf_base2odom in
        let trans_base2odom := origin tf_base2odom in
        flag_footprint_safe <~ lift (is_footprint_safe m (footprint_ptr_ s)) ;;
        flag_subgoal_safe <~
          lift (is_subgoal_safe m (walkable_path_ptr_ s) tf_odom2base) ;;
        flag_path_safe <~
          lift (is_path_safe m (walkable_path_ptr_ s) tf_odom2base) ;;
        let flag_path_deprecated :=
          is_path_deprecated (now_check env) (walkable_path_ptr_ s) in
        flag_robot_following_path <~
          lift (is_robot_following_path (walkable_path_ptr_ s)
                  (tracking_progress_percentage_ s) tf_odom2base) ;;
        let dis_robot2goal :=
          hypot (px trans_base2odom - px finalgoal)
                (py trans_base2odom - py finalgoal) in
        if negb flag_footprint_safe then
          emit (Publish_walkable_path (empty_path cfg)) ;;;
          publish_robot_status_marker "Collision detected" ;;;
          assign (set_busy false)
        else if Qleb dis_robot2goal (map_resolution * 2) then
          assign (set_finalgoal None) ;;;
          emit (Publish_walkable_path (empty_path cfg)) ;;;
          assign (set_walkable_path None) ;;;
          publish_robot_status_marker "finalgoal arrival" ;;;
          assign (set_busy false)
        else if (Qleb dis_robot2goal (15 # 10)
                 || Qltb (tracking_progress_percentage_ s)
                         kThresPercentageOfArrival)
                && flag_path_safe && flag_robot_following_path
                && negb flag_path_deprecated then
          publish_walkable_path_ptr ;;;
          assign (set_busy false)
        else
          timer_replan cfg env m finalgoal flag_subgoal_safe flag_path_safe
                       flag_path_deprecated flag_robot_following_path ;;;
          assign (set_busy false)
    end.

(** *** The dispatcher *)

(** The messages and timer events that [ros::spin()] hands to the node, one
    at a time, each callback running to completion before the next. *)
Inductive Msg : Type :=
| Local_map (map_msg : Map)
| Footprint_msg (footprint_msg : Footprint)
| Tracking_progress (data : Q)
| Final_goal (env : Env) (goal_msg : Point)
| Timer (env : Env).

Definition dispatch (cfg : Params) (msg : Msg) : Cb unit :=
  match msg with
  | Local_map m => localmap_cb m
  | Footprint_msg f => footprint_cb f
  | Tracking_progress p => progress_cb p
  | Final_goal env g =>
      if flag_infinity_traval_ cfg then ret tt else finalgoal_cb cfg env g
  | Timer env => timer_cb cfg env
  end.

Fixpoint spin (cfg : Params) (msgs : list Msg) : Cb unit :=
  match msgs with
  | [] => ret tt
  | msg :: rest => dispatch cfg msg ;;; spin cfg rest
  end.

End Node.

(** * Vocabulary of the properties *)

(** The column of a cell index as both scans compute it:
    [idx % map_width]. *)
Definition column (m : Map) (idx : Z) : Z := Z.rem idx (width m).

(** A cell the scans may read: inside the linear index range and at most
    [bound] columns from the centre [target_idx]. *)
Definition within_window (m : Map) (bound target_idx op_idx : Z) : Prop :=
  0 <= op_idx <= width m * height m - 1 /\
  Z.abs (column m op_idx - column m target_idx) <= bound.

(** A surviving window cell: a cell [target_idx + x + width * y] with [x]
    and [y] in [-bound, bound] that passes both rejections. *)
Definition window_cell (m : Map) (bound target_idx op_idx : Z) : Prop :=
  (exists x y, - bound <= x <= bound /\ - bound <= y <= bound /\
               op_idx = target_idx + x + width m * y) /\
  within_window m bound target_idx op_idx.

(** A 3 x 3 grid of 0.2 m cells, every cell occupied. *)
Definition grid3_occupied : Map :=
  mkMap (1 # 5) 0 0 3 3 [100; 100; 100; 100; 100; 100; 100; 100; 100].

(** A 3 x 3 grid of 0.2 m cells, every cell unknown. *)
Definition grid3_unknown : Map :=
  mkMap (1 # 5) 0 0 3 3 [-1; -1; -1; -1; -1; -1; -1; -1; -1].

(** What the scan of [get_local_max_cost] maintains: a defined, non-negative
    running cost that bounds every cell read and is 0 or one of them. *)
Definition max_cost_inv (m : Map) (s : Scan) : Prop :=
  exists c, cost s = Some c /\ 0 <= c /\
    (forall op, In op (reads s) -> exists v, data_at m op = Some v /\ v <= c) /\
    (c = 0 \/ exists op, In op (reads s) /\ data_at m op = Some c).

(** A waypoint that [approach_unsafe_subgoal] accepts: the smoothed cost of
    its cell is below the danger threshold and the cell itself is known. *)
Definition waypoint_qualifies (m : Map) (tf_odom2base : Transform)
    (wp : Point) : Prop :=
  let idx := point_idx m (tf_apply tf_odom2base wp) in
  exists c v,
    get_local_max_cost m idx = Some c /\ c < kThresObstacleDangerCost /\
    data_at m idx = Some v /\ 0 <= v.

(** A waypoint that [approach_unsafe_subgoal] passes over: the smoothed cost
    reaches the threshold, or the cell is read and unknown. *)
Definition waypoint_rejected (m : Map) (tf_odom2base : Transform)
    (wp : Point) : Prop :=
  let idx := point_idx m (tf_apply tf_odom2base wp) in
  exists c,
    get_local_max_cost m idx = Some c /\
    (kThresObstacleDangerCost <= c \/
     exists v, data_at m idx = Some v /\ v < 0).

(** The identity transform. *)
Definition tf_identity : Transform :=
  mkTransform (mkMatrix (mkPoint 1 0 0) (mkPoint 0 1 0) (mkPoint 0 0 1))
              (mkPoint 0 0 0).

(** A 4 x 1 grid of 1 m cells at the origin: occupied, unknown, free, free. *)
Definition corridor4 : Map := mkMap 1 0 0 4 1 [100; -1; 0; 0].

(** A path along [corridor4], one waypoint per cell. *)
Definition corridor4_path : Path :=
  mkPath 0 "odom" [mkPoint 0 0 0; mkPoint 1 0 0; mkPoint 2 0 0; mkPoint 3 0 0].

(** ** Radial search *)

Section Search_vocabulary.

Variable sin : Q -> Q.
Variable cos : Q -> Q.
Variable hypot : Q -> Q -> Q.
Variable cfg : Params.
Variable m : Map.
Variable vec_goal_base_frame : Point.
Variable dis_base2goal : Q.

(** The smoothed cost sampled on ray [i] at step [j] (0 if undefined). *)
Definition sampled_cost (i j : Z) : Z :=
  match get_local_max_cost m (sample_idx sin cos cfg m i j) with
  | Some c => c
  | None => 0
  end.

(** The straight-line distance from the candidate on ray [i] at step [j] to
    the goal in the robot frame. *)
Definition distance_to_goal (i j : Z) : Q :=
  hypot (distance_resolution * inject_Z j * sin (theta_from_yaxis i)
         + path_start_offsetx_ cfg - px vec_goal_base_frame)
        (distance_resolution * inject_Z j * cos (theta_from_yaxis i)
         + path_start_offsety_ cfg - py vec_goal_base_frame).

(** The score of the candidate on ray [i] at step [j], as the code computes
    it for a [dis_base2goal] other than 0. *)
Definition score_of (i j : Z) : Q :=
  score_value sin cos hypot cfg vec_goal_base_frame dis_base2goal i j
              (sampled_cost i j).

(** The sample of ray [i] at step [j] is safe: its smoothed cost does not
    exceed the danger threshold and its own cell is read and is not -1. *)
Definition sample_safe (i j : Z) : Prop :=
  exists c v,
    get_local_max_cost m (sample_idx sin cos cfg m i j) = Some c /\
    c <= kThresObstacleDangerCost /\
    data_at m (sample_idx sin cos cfg m i j) = Some v /\ v <> -1.

(** The sample of ray [i] at step [j] ends the ray: its smoothed cost exceeds
    the danger threshold, or its own cell is read and is -1. *)
Definition sample_stops (i j : Z) : Prop :=
  exists c,
    get_local_max_cost m (sample_idx sin cos cfg m i j) = Some c /\
    (kThresObstacleDangerCost < c \/
     data_at m (sample_idx sin cos cfg m i j) = Some (-1)).

(** The steps of ray [i] split into the safe samples [sampled] that the ray
    visits and the rest, which begins with the sample that ends the ray
    (or is empty when the ray reaches the last step). *)
Definition ray_extent (i : Z) (sampled rest : list Z) : Prop :=
  Zrange 3 max_distance_idx = sampled ++ rest /\
  Forall (sample_safe i) sampled /\
  match rest with
  | [] => True
  | j :: _ => sample_stops i j
  end.

(** The outcome [(score, step)] of ray [i] over the safe samples [sampled]:
    either no sample scores above 0 and the outcome is (0, 0), or [step] is
    the first sample whose score is the largest, and that score is above
    0. *)
Definition ray_outcome (i : Z) (sampled : list Z) (r : Q * Z) : Prop :=
  (r = (0%Q, 0) /\ forall j, In j sampled -> (score_of i j <= 0)%Q) \/
  (exists earlier later,
     sampled = earlier ++ snd r :: later /\
     fst r = score_of i (snd r) /\
     (0 < fst r)%Q /\
     (forall j, In j earlier -> (score_of i j < fst r)%Q) /\
     (forall j, In j later -> (score_of i j <= fst r)%Q)).


(** The running pair [(max_j_score, candidate_j)] after the safe samples
    [sampled]. *)
Definition scan_best (i : Z) (sampled : list Z) (start : Q * Z) : Q * Z :=
  fold_left
    (fun acc j => if Qgtb (score_of i j) (fst acc) then (score_of i j, j) else acc)
    sampled start.

(** The search state after the rays [is], when ray [i] ends with
    [outcome i]. *)
Definition search_of (outcome : Z -> Q * Z) (angles : list Z) : Search :=
  mkSearch
    (map (fun i => fst (outcome i)) angles)
    (flat_map
       (fun i =>
          [mkPoint (path_start_offsetx_ cfg) (path_start_offsety_ cfg) 0;
           ray_point sin cos cfg i (snd (outcome i))]) angles)
    (map
       (fun i =>
          let pt := ray_point sin cos cfg i (snd (outcome i)) in
          Mkr_candidate_score i (mkPoint (px pt) (py pt) (8 # 10))
                              (fst (outcome i))) angles).

End Search_vocabulary.

(** Rational stand-ins for [std::sin] and [std::cos] at the fifteen angles of
    the search (multiples of 10 degrees, six decimals), used to evaluate the
    search on examples. *)
Definition sin_table (t : Q) : Q :=
  match Qround (t / (M_PI / 18)) with
  | 2 | 16 => 342020 # 1000000
  | 3 | 15 => 1 # 2
  | 4 | 14 => 642788 # 1000000
  | 5 | 13 => 766044 # 1000000
  | 6 | 12 => 866025 # 1000000
  | 7 | 11 => 939693 # 1000000
  | 8 | 10 => 984808 # 1000000
  | 9 => 1
  | _ => 0
  end.

Definition cos_table (t : Q) : Q :=
  match Qround (t / (M_PI / 18)) with
  | 2 => 939693 # 1000000
  | 3 => 866025 # 1000000
  | 4 => 766044 # 1000000
  | 5 => 642788 # 1000000
  | 6 => 1 # 2
  | 7 => 342020 # 1000000
  | 8 => 173648 # 1000000
  | 9 => 0
  | 10 => - (173648 # 1000000)
  | 11 => - (342020 # 1000000)
  | 12 => - (1 # 2)
  | 13 => - (642788 # 1000000)
  | 14 => - (766044 # 1000000)
  | 15 => - (866025 # 1000000)
  | 16 => - (939693 # 1000000)
  | _ => 1
  end.

(** Rational stand-in for [std::hypot]: the square root rounded down to six
    decimals. *)
Definition hypot_approx (x y : Q) : Q :=
  inject_Z (Z.sqrt (Qfloor ((x * x + y * y) * 1000000000000))) / 1000000.

(** Scenario A: a 6 m x 6 m grid of free 0.1 m cells centred on the
    robot and a goal 2 m ahead, 1 m to the left. *)
Definition scenario_a_map : Map :=
  mkMap (1 # 10) (-3) (-3) 60 60 (repeat 0 3600).
Definition scenario_a_goal : Point := mkPoint 2 1 0.

(** A 4 x 6 grid of 1 m cells that lies behind and beside the robot (columns
    at x = -4 .. -1, rows at y = -2 .. 3); every cell is unknown except
    cell 14, which is free. With 1 m cells the kernel of
    [get_local_max_cost] is the cell itself. *)
Definition rear_map : Map :=
  mkMap 1 (-4) (-2) 4 6
        [-1; -1; -1; -1;
         -1; -1; -1; -1;
         -1; -1; -1; -1;
         -1; -1;  0; -1;
         -1; -1; -1; -1;
         -1; -1; -1; -1].

(** The same grid with every cell unknown. *)
Definition rear_map_unknown : Map :=
  mkMap 1 (-4) (-2) 4 6 (repeat (-1) 24).

(** A goal 0.3 m ahead of the robot and a goal 10 m ahead of it; both are
    beyond the last column of [rear_map]. *)
Definition goal_near : Point := mkPoint (3 # 10) 0 0.
Definition goal_far : Point := mkPoint 10 0 0.

(** A goal at the robot itself. *)
Definition goal_at_robot : Point := mkPoint 0 0 0.

(** ** Decision cycles *)

(** The nodes written by the assignments of a trace, in order. *)
Fixpoint assigned (t : list Event) : list Node :=
  match t with
  | [] => []
  | Assign after :: rest => after :: assigned rest
  | _ :: rest => assigned rest
  end.





(** Stand-ins for the external functions, used to run the callbacks on
    examples: a footprint that covers the cell of the robot in [rear_map]
    (column 3, row 2), a footprint that covers no cell, and a solver that
    finds no path. *)
Definition footprint_on_robot_cell (_ : option Footprint) (_ : Map)
    : list (Z * Z) := [(3, 2)].
Definition footprint_nowhere (_ : option Footprint) (_ : Map)
    : list (Z * Z) := [].
Definition solver_fails (_ : Map) (path : Path) (_ _ : Z) (_ : Q)
    : bool * Path := (false, path).

Definition env0 : Env := mkEnv tf_identity 0 0.

(** The node after a map and a goal have arrived, idle. *)
Definition node_with_goal : Node :=
  mkNode (Some rear_map) None None (Some goal_far) 0 false.

(** A run of the node: a map arrives, a goal is assigned, the timer fires,
    and a second map arrives. *)
Definition example_msgs : list Msg :=
  [Local_map rear_map; Final_goal env0 goal_far; Timer env0;
   Local_map rear_map_unknown].

(** ** Further vocabulary *)

(** The linear indices of the offsets of a window scan, in scan order (rows
    [y] outside, columns [x] inside). *)
Definition window_indices (m : Map) (bound target_idx : Z) : list Z :=
  flat_map
    (fun y => map (fun x => target_idx + x + width m * y) (Zrange (- bound) bound))
    (Zrange (- bound) bound).

(** One iteration of the scan of [get_local_max_cost] at the offset whose
    linear index is [op_idx]. *)
Definition max_cost_step (m : Map) (bound target_idx op_idx : Z) (s : Scan) : Scan :=
  if skip_cell m bound target_idx op_idx then s
  else
    mkScan (op_idx :: reads s)
           (c <- cost s ;;
            v <- data_at m op_idx ;;
            Some (if v >? c then v else c)).

(** One iteration of the scan of [get_local_avg_cost]. *)
Definition avg_cost_step (m : Map) (bound target_idx op_idx : Z) (s : Scan) : Scan :=
  if skip_cell m bound target_idx op_idx then s
  else
    mkScan (op_idx :: reads s)
           (c <- cost s ;;
            v <- data_at m op_idx ;;
            Some (c + v)).

(** Every cell of the grid holds a cost of the occupancy-grid range. *)
Definition costs_in_range (m : Map) : Prop :=
  Forall (fun v => -1 <= v <= 100) (data m).

(** A 3 x 3 grid of 0.2 m cells: free except the occupied centre. *)
Definition grid3_centre : Map :=
  mkMap (1 # 5) 0 0 3 3 [0; 0; 0; 0; 100; 0; 0; 0; 0].

(** A footprint cell [(column, row)] whose own grid cell is known and below
    the danger threshold. *)
Definition footprint_cell_free (m : Map) (cell : Z * Z) : Prop :=
  exists v,
    data_at m (snd cell * width m + fst cell) = Some v /\
    0 <= v < kThresObstacleDangerCost.

(** A path of [n] waypoints on the x axis, one per metre. *)
Definition straight_path (n : nat) : Path :=
  mkPath 0 "odom" (map (fun k => mkPoint (inject_Z (Z.of_nat k)) 0 0) (seq 0 n)).

(** A goal 10 m behind the robot, outside [scenario_a_map] on its lower
    side. *)
Definition goal_behind : Point := mkPoint (-10) 0 0.

(** A solver stand-in that finds a two-waypoint path in the robot frame. *)
Definition solver_finds (_ : Map) (path : Path) (_ _ : Z) (_ : Q) : bool * Path :=
  (true, with_poses [mkPoint (44 # 100) 0 0; mkPoint 2 0 0] path).

(** A transform that places the robot 1 m along x in the path frame. *)
Definition tf_shift : Transform :=
  mkTransform (mkMatrix (mkPoint 1 0 0) (mkPoint 0 1 0) (mkPoint 0 0 1))
              (mkPoint 1 0 0).
Definition env_shift : Env := mkEnv tf_shift 0 7.

(** The node after a map has arrived, without a goal. *)
Definition node_with_map : Node := mkNode (Some rear_map) None None None 0 false.

(** The node with [rear_map] and a goal 0.3 m ahead, idle. *)
Definition node_near_goal : Node :=
  mkNode (Some rear_map) None None (Some goal_near) 0 false.

(** The two free cells of [corridor4] as a path, and the node that follows
    it towards a goal 10 m ahead. *)
Definition free_path : Path :=
  mkPath 0 "odom" [mkPoint 2 0 0; mkPoint 3 0 0].
Definition node_following : Node :=
  mkNode (Some corridor4) (Some free_path) None (Some goal_far) 0 false.

(** ** Properties of every run of a callback *)

(** [P] relates the node before, the node after and the events of every
    defined run of [c]. *)
Definition holds {A : Type} (P : Node -> Node -> list Event -> Prop)
    (c : Cb A) : Prop :=
  forall s a s' t, c s = Some (a, s', t) -> P s s' t.

(** The inputs that other callbacks own are as they were: the map snapshot,
    the footprint and the tracking progress. *)
Definition same_inputs (s s' : Node) (_ : list Event) : Prop :=
  localmap_ptr_ s' = localmap_ptr_ s /\
  footprint_ptr_ s' = footprint_ptr_ s /\
  tracking_progress_percentage_ s' = tracking_progress_percentage_ s.

(** The goal is as it was, unless it has been cleared and the status [text]
    published. *)
Definition goal_kept_unless (text : string) (s s' : Node) (t : list Event)
    : Prop :=
  finalgoal_ptr_ s' = finalgoal_ptr_ s \/
  (finalgoal_ptr_ s' = None /\ In (Publish_robot_status text) t).

Definition is_solver_call (e : Event) : bool :=
  match e with Call_solver _ _ => true | _ => false end.
Definition is_path_publication (e : Event) : bool :=
  match e with Publish_walkable_path _ => true | _ => false end.

(** The number of events of [t] that satisfy [p]. *)
Definition count_events (p : Event -> bool) (t : list Event) : nat :=
  List.length (filter p t).

(** The number of solver calls and the number of path publications of a
    trace. *)
Definition tally (t : list Event) : nat * nat :=
  (count_events is_solver_call t, count_events is_path_publication t).

Definition tally_add (a b : nat * nat) : nat * nat :=
  ((fst a + fst b)%nat, (snd a + snd b)%nat).

(** The tally of every defined run of [c] satisfies [R]. *)
Definition tallies {A : Type} (R : nat * nat -> Prop) (c : Cb A) : Prop :=
  holds (fun _ _ t => R (tally t)) c.

(** Every defined run of [c] has the tally [n]. *)
Definition emits {A : Type} (n : nat * nat) (c : Cb A) : Prop :=
  holds (fun _ _ t => tally t = n) c.

(** Every defined run of [c] calls the solver at most once, and publishes a
    path at most once and at least as often as it calls the solver. *)
Definition plans_once {A : Type} (c : Cb A) : Prop :=
  holds (fun _ _ t => (fst (tally t) <= snd (tally t) <= 1)%nat) c.

(** The goal is as it was. *)
Definition same_goal (s s' : Node) (_ : list Event) : Prop :=
  finalgoal_ptr_ s' = finalgoal_ptr_ s.

(** After a goal assignment the goal is the assigned one, unless it has been
    cleared and the status [text] published. *)
Definition goal_stored_unless (goal : Point) (text : string)
    (_ s' : Node) (t : list Event) : Prop :=
  finalgoal_ptr_ s' = Some goal \/
  (finalgoal_ptr_ s' = None /\ In (Publish_robot_status text) t).

(** * The local cost kernel *)

Lemma for_window_inv {S : Type} (P : S -> Prop) (bound : Z)
    (body : Z -> Z -> S -> S) (s : S) :
  P s -> (forall y x s', P s' -> P (body y x s')) -> P (for_window bound body s).
Proof.
  intros Hs Hbody. unfold for_window.
  generalize (Zrange (- bound) bound) at 2 as ys.
  intros ys. revert s Hs.
  induction ys as [|y ys IH]; intros s Hs; simpl; [exact Hs|].
  apply IH.
  generalize (Zrange (- bound) bound) as xs.
  intros xs. revert s Hs.
  induction xs as [|x xs IHx]; intros s Hs; simpl; [exact Hs|].
  apply IHx, Hbody, Hs.
Qed.

Lemma skip_cell_false (m : Map) (bound target_idx op_idx : Z) :
  skip_cell m bound target_idx op_idx = false ->
  within_window m bound target_idx op_idx.
Proof.
  unfold skip_cell, within_window, column, max_map_idx.
  destruct (op_idx <? 0) eqn:Hlo; simpl; [discriminate|].
  destruct (op_idx >? width m * height m - 1) eqn:Hhi; simpl; [discriminate|].
  intros Hcol. lia.
Qed.

Lemma max_cost_body_reads (m : Map) (bound target_idx y x : Z) (s : Scan) :
  Forall (within_window m bound target_idx) (reads s) ->
  Forall (within_window m bound target_idx)
         (reads (max_cost_body m bound target_idx y x s)).
Proof.
  intros H. unfold max_cost_body.
  destruct (skip_cell m bound target_idx (target_idx + x + width m * y)) eqn:E.
  - exact H.
  - simpl. constructor; [apply skip_cell_false, E | exact H].
Qed.

Lemma avg_cost_body_reads (m : Map) (bound target_idx y x : Z) (s : Scan) :
  Forall (within_window m bound target_idx) (reads s) ->
  Forall (within_window m bound target_idx)
         (reads (avg_cost_body m bound target_idx y x s)).
Proof.
  intros H. unfold avg_cost_body.
  destruct (skip_cell m bound target_idx (target_idx + x + width m * y)) eqn:E.
  - exact H.
  - simpl. constructor; [apply skip_cell_false, E | exact H].
Qed.

(** C3. Every index at which [get_local_max_cost] and [get_local_avg_cost]
    read [data] lies in [0, width*height - 1] and its column is at most the
    window half-width away from the column of the centre index; so no cell
    beyond that column distance is read, whatever its linear index, and no
    cell outside the linear range is read. *)
Theorem window_scans_stay_in_column_band (m : Map) (target_idx : Z) :
  Forall (within_window m (kernel_bound (6 # 10) m) target_idx)
         (reads (get_local_max_cost_scan m target_idx)) /\
  Forall (within_window m (kernel_bound 1 m) target_idx)
         (reads (get_local_avg_cost_scan m target_idx)).
Proof.
  split.
  - unfold get_local_max_cost_scan.
    apply for_window_inv; [constructor|].
    intros y x s'. apply max_cost_body_reads.
  - unfold get_local_avg_cost_scan.
    apply for_window_inv; [constructor|].
    intros y x s'. apply avg_cost_body_reads.
Qed.

Lemma data_at_defined (m : Map) (idx : Z) :
  wf_map m -> 0 <= idx <= width m * height m - 1 ->
  exists v, data_at m idx = Some v.
Proof.
  intros (_ & _ & Hlen) Hidx. unfold data_at.
  destruct (idx <? 0) eqn:E; [lia|].
  destruct (nth_error (data m) (Z.to_nat idx)) as [v|] eqn:En; [now exists v|].
  apply nth_error_None in En. lia.
Qed.

Lemma max_cost_body_inv (m : Map) (bound target_idx y x : Z) (s : Scan) :
  wf_map m -> max_cost_inv m s ->
  max_cost_inv m (max_cost_body m bound target_idx y x s).
Proof.
  intros Hwf (c & Hc & Hpos & Hub & Hatt). unfold max_cost_body.
  set (op := target_idx + x + width m * y).
  destruct (skip_cell m bound target_idx op) eqn:E.
  - exists c. auto.
  - apply skip_cell_false in E. destruct E as [Hrange _].
    destruct (data_at_defined m op Hwf Hrange) as [v Hv].
    simpl. rewrite Hc, Hv. simpl.
    destruct (v >? c) eqn:Hcmp.
    + exists v. split; [reflexivity|]. split; [lia|]. split.
      * intros op' [<-|Hin]; [exists v; split; [exact Hv|lia]|].
        destruct (Hub op' Hin) as (v' & Hv' & Hle). exists v'. split; [exact Hv'|lia].
      * right. exists op. split; [now left|exact Hv].
    + exists c. split; [reflexivity|]. split; [lia|]. split.
      * intros op' [<-|Hin]; [exists v; split; [exact Hv|lia]|].
        apply Hub, Hin.
      * destruct Hatt as [->|(op' & Hin & Hop')]; [now left|].
        right. exists op'. split; [now right|exact Hop'].
Qed.

Lemma max_cost_scan_inv (m : Map) (target_idx : Z) :
  wf_map m -> max_cost_inv m (get_local_max_cost_scan m target_idx).
Proof.
  intros Hwf. unfold get_local_max_cost_scan.
  apply for_window_inv.
  - exists 0. simpl. split; [reflexivity|]. split; [lia|].
    split; [intros op []|now left].
  - intros y x s'. apply max_cost_body_inv, Hwf.
Qed.

(** [get_local_max_cost] never runs into undefined behaviour on a
    well-formed grid. *)
Lemma get_local_max_cost_defined (m : Map) (target_idx : Z) :
  wf_map m -> exists c, get_local_max_cost m target_idx = Some c /\ 0 <= c.
Proof.
  intros Hwf. destruct (max_cost_scan_inv m target_idx Hwf) as (c & Hc & Hpos & _).
  exists c. split; [exact Hc|exact Hpos].
Qed.

(** C7, counterexample. The centre index -1 is out of range, yet the window
    around it reaches cells 0 and 3 of the grid, and the result is their
    cost 100, not 0. On a grid of unknown cells the result is 0, which is not
    the largest surviving cost -1. *)
Lemma get_local_max_cost_out_of_range_centre :
  wf_map grid3_occupied /\
  ~ (0 <= -1 <= max_map_idx grid3_occupied) /\
  reads (get_local_max_cost_scan grid3_occupied (-1)) = [3; 0] /\
  get_local_max_cost grid3_occupied (-1) = Some 100 /\
  get_local_max_cost grid3_occupied (-1) <> Some 0 /\
  get_local_max_cost grid3_unknown 4 = Some 0.
Proof.
  split; [unfold wf_map; simpl; lia|].
  split; [lia|].
  split; [vm_compute; reflexivity|].
  split; [vm_compute; reflexivity|].
  split; [vm_compute; discriminate|].
  vm_compute; reflexivity.
Qed.

(** On a 3 x 3 grid with half-width 1, the window of the corner cell 2
    (column 2) skips cells 0, 3 and 6 of column 0 although 3 and 6 are
    offsets of the window with a valid linear index. *)
Example window_of_right_edge_cell :
  reads (get_local_max_cost_scan grid3_occupied 2) = [5; 4; 2; 1].
Proof. vm_compute. reflexivity. Qed.

(** * Safety predicates *)

(** C8. With a null path pointer, and with a path of zero waypoints, every
    predicate answers without undefined behaviour: [is_subgoal_safe] and
    [is_path_safe] answer false, [is_path_deprecated] answers true and
    [is_robot_following_path] answers false, for every map, transform, clock
    value and progress value. *)
Theorem predicates_on_null_or_empty_path (m : Map) (tf_odom2base : Transform)
    (now : Time) (progress : Q) (t : Time) (frame : string) :
  let conservative path_ptr :=
    is_subgoal_safe m path_ptr tf_odom2base = Some false /\
    is_path_safe m path_ptr tf_odom2base = Some false /\
    is_path_deprecated now path_ptr = true /\
    is_robot_following_path path_ptr progress tf_odom2base = Some false in
  conservative None /\ conservative (Some (mkPath t frame [])).
Proof.
  simpl. repeat split; reflexivity.
Qed.

Lemma Qtrunc_nonneg (q : Q) : (0 <= q)%Q -> Qtrunc q = Qfloor q.
Proof.
  destruct q as [n d]. unfold Qle, Qtrunc, Qfloor. simpl. intros H.
  apply Z.quot_div_nonneg; lia.
Qed.

Lemma Qtrunc_range (q : Q) (n : Z) :
  (0 <= q)%Q -> (q < inject_Z n)%Q -> 0 <= Qtrunc q <= n - 1.
Proof.
  intros H0 Hn. rewrite (Qtrunc_nonneg q H0). split.
  - rewrite <- (Qfloor_Z 0). apply Qfloor_resp_le. exact H0.
  - assert (H : (inject_Z (Qfloor q) < inject_Z n)%Q).
    { eapply Qle_lt_trans; [apply Qfloor_le|exact Hn]. }
    rewrite <- Zlt_Qlt in H. lia.
Qed.

(** C9. For a path of [size >= 1] waypoints and a progress value in
    [0, 0.99], the index [size * (0.99 - progress)] converted to [int] lies
    in [0, size - 1], so [poses[target_idx]] is an element of the path and
    [is_robot_following_path] is defined. *)
Theorem tracking_idx_in_bounds (path : Path) (progress : Q)
    (tf_odom2base : Transform) :
  poses path <> [] ->
  (0 <= progress)%Q -> (progress <= 99 # 100)%Q ->
  0 <= tracking_idx (List.length (poses path)) progress
    <= Z.of_nat (List.length (poses path)) - 1 /\
  (exists tracking_point,
     poses_at path (tracking_idx (List.length (poses path)) progress)
     = Some tracking_point) /\
  (exists b, is_robot_following_path (Some path) progress tf_odom2base = Some b).
Proof.
  intros Hne Hlo Hhi.
  set (size := List.length (poses path)).
  assert (Hsize : (1 <= size)%nat).
  { subst size. destruct (poses path); [congruence|simpl; lia]. }
  assert (Hidx : 0 <= tracking_idx size progress <= Z.of_nat size - 1).
  { unfold tracking_idx. apply Qtrunc_range.
    - apply Qmult_le_0_compat.
      + replace 0%Q with (inject_Z 0) by reflexivity.
        rewrite <- Zle_Qle. lia.
      + lra.
    - assert (Hs : (0 < inject_Z (Z.of_nat size))%Q).
      { replace 0%Q with (inject_Z 0) by reflexivity. rewrite <- Zlt_Qlt. lia. }
      nra. }
  assert (Hat : exists tracking_point,
             poses_at path (tracking_idx size progress) = Some tracking_point).
  { unfold poses_at. destruct (tracking_idx size progress <? 0) eqn:E; [lia|].
    destruct (nth_error (poses path) (Z.to_nat (tracking_idx size progress)))
      as [p|] eqn:En; [now exists p|].
    apply nth_error_None in En. fold size in En. lia. }
  split; [exact Hidx|]. split; [exact Hat|].
  unfold is_robot_following_path. fold size.
  destruct (size <? 1)%nat eqn:E; [apply Nat.ltb_lt in E; lia|].
  destruct Hat as [p Hp]. rewrite Hp. simpl.
  destruct (Qgeb _ _); eauto.
Qed.

Lemma tracking_idx_in_bounds_witness :
  0 <= tracking_idx 3 (1 # 2) <= 2 /\
  tracking_idx 3 (1 # 2) = 1.
Proof.
  pose proof (tracking_idx_in_bounds
                (mkPath 0 "odom" [mkPoint 0 0 0; mkPoint 1 0 0; mkPoint 2 0 0])
                (1 # 2)
                (mkTransform (mkMatrix (mkPoint 1 0 0) (mkPoint 0 1 0) (mkPoint 0 0 1))
                             (mkPoint 0 0 0))) as H.
  simpl in H.
  destruct H as [H _]; [discriminate | unfold Qle; simpl; lia
                        | unfold Qle; simpl; lia |].
  split; [exact H|reflexivity].
Defined.

(** * Unsafe-subgoal recovery *)

Lemma cell_unsafe_rejected (m : Map) (tf_odom2base : Transform) (wp : Point) :
  waypoint_rejected m tf_odom2base wp ->
  cell_unsafe m (point_idx m (tf_apply tf_odom2base wp)) = Some true.
Proof.
  intros (c & Hc & Hcase). unfold cell_unsafe. rewrite Hc. simpl.
  destruct (c >=? kThresObstacleDangerCost) eqn:E; [reflexivity|].
  destruct Hcase as [Hge|(v & Hv & Hneg)]; [lia|].
  rewrite Hv. simpl. f_equal. lia.
Qed.

Lemma cell_unsafe_qualifies (m : Map) (tf_odom2base : Transform) (wp : Point) :
  waypoint_qualifies m tf_odom2base wp ->
  cell_unsafe m (point_idx m (tf_apply tf_odom2base wp)) = Some false.
Proof.
  intros (c & v & Hc & Hlt & Hv & Hpos). unfold cell_unsafe. rewrite Hc. simpl.
  destruct (c >=? kThresObstacleDangerCost) eqn:E; [lia|].
  rewrite Hv. simpl. f_equal. lia.
Qed.

Lemma approach_unsafe_subgoal_unfold (m : Map) (path : Path) (tf : Transform) :
  approach_unsafe_subgoal m (Some path) tf
  = approach_unsafe_subgoal_loop m tf (poses path).
Proof.
  unfold approach_unsafe_subgoal. destruct (poses path); reflexivity.
Qed.

Lemma approach_loop_found (m : Map) (tf : Transform) (before after : list Point)
    (wp : Point) :
  Forall (waypoint_rejected m tf) before ->
  waypoint_qualifies m tf wp ->
  approach_unsafe_subgoal_loop m tf (before ++ wp :: after)
  = Some (tf_apply tf wp).
Proof.
  intros Hrej Hq. induction Hrej as [|w ws Hw _ IH]; simpl.
  - rewrite (cell_unsafe_qualifies _ _ _ Hq). reflexivity.
  - rewrite (cell_unsafe_rejected _ _ _ Hw). simpl. exact IH.
Qed.

Lemma approach_loop_none (m : Map) (tf : Transform) (wps : list Point) :
  Forall (waypoint_rejected m tf) wps ->
  approach_unsafe_subgoal_loop m tf wps = Some Point_zero.
Proof.
  intros Hrej. induction Hrej as [|w ws Hw _ IH]; simpl; [reflexivity|].
  rewrite (cell_unsafe_rejected _ _ _ Hw). simpl. exact IH.
Qed.

(** C6. [approach_unsafe_subgoal] returns the robot-frame image of the first
    waypoint, in path order, whose smoothed cost is below the danger
    threshold and whose own cell is known; when every waypoint is passed
    over, and when the path is null or empty, it returns the point (0,0).
    The caller in [timer_cb] tests that point and, on it, regenerates the
    subgoal with [generate_subgoal]. *)
Theorem approach_unsafe_subgoal_first_safe
    (sin cos : Q -> Q) (hypot : Q -> Q -> Q) (cfg : Params) (env : Env)
    (m : Map) (finalgoal : Point) (tf_odom2base : Transform) :
  (forall path before wp after,
     poses path = before ++ wp :: after ->
     Forall (waypoint_rejected m tf_odom2base) before ->
     waypoint_qualifies m tf_odom2base wp ->
     approach_unsafe_subgoal m (Some path) tf_odom2base
     = Some (tf_apply tf_odom2base wp)) /\
  (forall path,
     Forall (waypoint_rejected m tf_odom2base) (poses path) ->
     approach_unsafe_subgoal m (Some path) tf_odom2base = Some Point_zero) /\
  (forall t frame,
     approach_unsafe_subgoal m (Some (mkPath t frame [])) tf_odom2base
     = Some Point_zero) /\
  approach_unsafe_subgoal m None tf_odom2base = Some Point_zero /\
  is_sentinel Point_zero = true /\
  (forall s path pt path_safe deprecated following,
     Qgeb (tracking_progress_percentage_ s) kThresPercentageOfArrival = false ->
     walkable_path_ptr_ s = Some path ->
     approach_unsafe_subgoal m (Some path) (tf_inverse (tf_base2odom_ env))
     = Some pt ->
     is_sentinel pt = true ->
     timer_choose_subgoal sin cos hypot cfg env m finalgoal
                          false path_safe deprecated following s
     = seq_cb (generate_subgoal_cb sin cos hypot cfg m finalgoal
                                   (tf_base2odom_ env))
              (fun pt' =>
                 seq_cb (publish_robot_status_marker "new subgoal is generated")
                        (fun _ => ret pt')) s).
Proof.
  split; [|split; [|split; [|split; [|split]]]].
  - intros path before wp after Hposes Hrej Hq.
    rewrite approach_unsafe_subgoal_unfold, Hposes.
    apply approach_loop_found; assumption.
  - intros path Hrej. rewrite approach_unsafe_subgoal_unfold.
    apply approach_loop_none, Hrej.
  - reflexivity.
  - reflexivity.
  - reflexivity.
  - intros s path pt ps dep fol Hprog Hpath Happ Hsent.
    unfold timer_choose_subgoal. unfold seq_cb at 1. unfold get.
    cbv beta iota. rewrite Hprog, Hpath. cbn [negb].
    unfold seq_cb at 1. unfold lift. rewrite Happ. cbv beta iota.
    rewrite Hsent.
    destruct (seq_cb _ _ s) as [[[pt' s'] t']|]; reflexivity.
Qed.

(** On [corridor4] the first waypoint is occupied and the second unknown; the
    third is the first safe one and is returned. With only the first two
    waypoints the answer is the point (0,0). *)
Example approach_unsafe_subgoal_corridor :
  approach_unsafe_subgoal corridor4 (Some corridor4_path) tf_identity
  = Some (tf_apply tf_identity (mkPoint 2 0 0)) /\
  approach_unsafe_subgoal corridor4
    (Some (mkPath 0 "odom" [mkPoint 0 0 0; mkPoint 1 0 0])) tf_identity
  = Some Point_zero.
Proof. split; vm_compute; reflexivity. Qed.

Lemma approach_unsafe_subgoal_first_safe_witness :
  approach_unsafe_subgoal corridor4 (Some corridor4_path) tf_identity
  = Some (tf_apply tf_identity (mkPoint 2 0 0)).
Proof.
  apply (proj1 (approach_unsafe_subgoal_first_safe
                  sin_table cos_table hypot_approx default_params env0
                  corridor4 goal_far tf_identity))
    with (before := [mkPoint 0 0 0; mkPoint 1 0 0]) (after := [mkPoint 3 0 0]).
  - reflexivity.
  - constructor; [|constructor; [|constructor]].
    + eexists. split; [vm_compute; reflexivity|left; vm_compute; discriminate].
    + eexists. split; [vm_compute; reflexivity|right].
      eexists. split; [vm_compute; reflexivity|reflexivity].
  - eexists. eexists. split; [vm_compute; reflexivity|].
    split; [reflexivity|]. split; [vm_compute; reflexivity|vm_compute; discriminate].
Defined.

(** * Subgoal generation *)

Section Subgoal.

Variable sin : Q -> Q.
Variable cos : Q -> Q.
Variable hypot : Q -> Q -> Q.

(** C2. When the cell of the goal in the robot frame lies inside the grid
    (column in [0, width), row in [0, height)), [generate_subgoal] returns
    the transformed goal itself; the radial search does not run: the only
    marker published is the subgoal sphere at the goal. *)
Theorem generate_subgoal_goal_in_range (cfg : Params) (m : Map)
    (finalgoal : Point) (tf_base2odom : Transform) (s : Node) :
  let g := tf_apply (tf_inverse tf_base2odom) finalgoal in
  0 <= Qtrunc ((px g - origin_x m) / resolution m) < width m ->
  0 <= Qtrunc ((py g - origin_y m) / resolution m) < height m ->
  goal_out_of_range m g = false /\
  generate_subgoal sin cos hypot cfg m finalgoal tf_base2odom
  = Some (g, [Mrk_subgoal finalgoal]) /\
  generate_subgoal_cb sin cos hypot cfg m finalgoal tf_base2odom s
  = Some (g, s, [Publish_marker_array [Mrk_subgoal finalgoal]]).
Proof.
  intros g Hx Hy.
  assert (Hin : goal_out_of_range m g = false).
  { unfold goal_out_of_range. apply orb_false_iff. split; lia. }
  assert (Hgen : generate_subgoal sin cos hypot cfg m finalgoal tf_base2odom
                 = Some (g, [Mrk_subgoal finalgoal])).
  { unfold generate_subgoal. fold g. rewrite Hin. reflexivity. }
  split; [exact Hin|]. split; [exact Hgen|].
  unfold generate_subgoal_cb, seq_cb, lift. rewrite Hgen. reflexivity.
Qed.


(** ** The outer loop and [argmax] *)

Lemma search_fold (cfg : Params) (m : Map) (g : Point) (D : Q)
    (outcome : Z -> Q * Z) (angles : list Z) (acc : Search) :
  (forall i, In i angles -> ray sin cos hypot cfg m g D i = Some (outcome i)) ->
  fold_left (search_body sin cos hypot cfg m g D) angles (Some acc)
  = Some (mkSearch
            (candidate_score_list acc
               ++ candidate_score_list (search_of sin cos cfg outcome angles))
            (candidate_points acc
               ++ candidate_points (search_of sin cos cfg outcome angles))
            (score_markers acc
               ++ score_markers (search_of sin cos cfg outcome angles))).
Proof.
  revert acc. induction angles as [|i angles IH]; intros acc H.
  - simpl. rewrite !app_nil_r. destruct acc; reflexivity.
  - cbn [fold_left]. unfold search_body at 2. cbn [bind].
    rewrite (H i (or_introl eq_refl)). cbn [bind].
    rewrite IH by (intros i' Hi'; apply H; now right).
    simpl. rewrite <- !app_assoc. reflexivity.
Qed.

Lemma radial_search_outcome (cfg : Params) (m : Map) (g : Point) (D : Q)
    (outcome : Z -> Q * Z) :
  (forall i, 2 <= i <= 16 ->
     ray sin cos hypot cfg m g D i = Some (outcome i)) ->
  radial_search sin cos hypot cfg m g D
  = Some (search_of sin cos cfg outcome (Zrange_down 16 2)).
Proof.
  intros H. unfold radial_search. rewrite (search_fold cfg m g D outcome).
  - reflexivity.
  - intros i Hi. apply H. unfold Zrange_down in Hi.
    apply in_map_iff in Hi. destruct Hi as (k & <- & Hk).
    apply in_seq in Hk. simpl in Hk. lia.
Qed.

Lemma Qltb_true (a b : Q) : Qltb a b = true <-> (a < b)%Q.
Proof.
  unfold Qltb. rewrite negb_true_iff. split.
  - intros H. apply Qnot_le_lt. intros Hle.
    apply Qle_bool_iff in Hle. congruence.
  - intros H. destruct (Qle_bool b a) eqn:E; [|reflexivity].
    apply Qle_bool_iff in E. apply Qle_not_lt in E. contradiction.
Qed.

Lemma Qltb_false (a b : Q) : Qltb a b = false <-> (b <= a)%Q.
Proof.
  unfold Qltb. rewrite negb_false_iff. apply Qle_bool_iff.
Qed.

Lemma max_element_from_spec (rest : list Q) :
  forall (full : list Q) (largest first : nat),
    skipn first full = rest ->
    (largest < first <= List.length full)%nat ->
    (forall n, (n < first)%nat -> (nth n full 0 <= nth largest full 0)%Q) ->
    (forall n, (n < largest)%nat -> (nth n full 0 < nth largest full 0)%Q) ->
    let k := max_element_from largest (nth largest full 0%Q) first rest in
    (k < List.length full)%nat /\
    (forall n, (n < List.length full)%nat -> (nth n full 0 <= nth k full 0)%Q) /\
    (forall n, (n < k)%nat -> (nth n full 0 < nth k full 0)%Q).
Proof.
  induction rest as [|x rest IH]; intros full largest first Hskip Hlt Hle Hstrict.
  - simpl. assert (first = List.length full).
    { assert (Hl : List.length (skipn first full) = 0%nat) by now rewrite Hskip.
      rewrite length_skipn in Hl. lia. }
    subst first. repeat split; [lia|exact Hle|exact Hstrict].
  - assert (Hfirst : (first < List.length full)%nat).
    { assert (Hl : List.length (skipn first full) = S (List.length rest))
        by now rewrite Hskip.
      rewrite length_skipn in Hl. lia. }
    assert (Hx : nth first full 0%Q = x).
    { rewrite <- (firstn_skipn first full) at 1. rewrite Hskip.
      rewrite app_nth2; rewrite length_firstn, Nat.min_l by lia; [|lia].
      rewrite Nat.sub_diag. reflexivity. }
    assert (Hrest : skipn (S first) full = rest).
    { replace (S first) with (1 + first)%nat by lia.
      rewrite <- skipn_skipn, Hskip. reflexivity. }
    simpl. destruct (Qltb (nth largest full 0%Q) x) eqn:E.
    + apply Qltb_true in E. rewrite <- Hx. rewrite <- Hx in E.
      apply IH; [exact Hrest|lia| |].
      * intros n Hn. destruct (Nat.eq_dec n first) as [->|Hne]; [apply Qle_refl|].
        apply Qlt_le_weak. eapply Qle_lt_trans; [apply Hle; lia|exact E].
      * intros n Hn. eapply Qle_lt_trans; [apply Hle; lia|exact E].
    + apply Qltb_false in E.
      apply IH; [exact Hrest|lia| |exact Hstrict].
      intros n Hn. destruct (Nat.eq_dec n first) as [->|Hne].
      * rewrite Hx. exact E.
      * apply Hle. lia.
Qed.

(** [argmax] returns the first position that holds the largest element. *)
Lemma argmax_spec (l : list Q) :
  l <> [] ->
  (argmax l < List.length l)%nat /\
  (forall n, (n < List.length l)%nat -> (nth n l 0 <= nth (argmax l) l 0)%Q) /\
  (forall n, (n < argmax l)%nat -> (nth n l 0 < nth (argmax l) l 0)%Q).
Proof.
  destruct l as [|x rest]; [congruence|]. intros _.
  change (argmax (x :: rest))
    with (max_element_from 0 (nth 0 (x :: rest) 0%Q) 1 rest).
  apply max_element_from_spec.
  - reflexivity.
  - simpl. lia.
  - intros n Hn. replace n with 0%nat by lia. apply Qle_refl.
  - intros n Hn. lia.
Qed.

Lemma candidate_point_at (cfg : Params) (outcome : Z -> Q * Z) (angles : list Z)
    (k : nat) :
  (k < List.length angles)%nat ->
  nth_error (candidate_points (search_of sin cos cfg outcome angles)) (k * 2 + 1)
  = Some (ray_point sin cos cfg (nth k angles 0) (snd (outcome (nth k angles 0)))).
Proof.
  revert k. induction angles as [|i angles IH]; intros k Hk; simpl in Hk; [lia|].
  destruct k as [|k]; [reflexivity|].
  simpl. apply IH. lia.
Qed.

Lemma Zrange_down_16_2_nth (k : nat) :
  (k < 15)%nat -> nth k (Zrange_down 16 2) 0 = 16 - Z.of_nat k.
Proof.
  intros Hk. do 15 (destruct k as [|k]; [reflexivity|]). lia.
Qed.


(** ** One ray *)

Lemma ray_loop_cons (cfg : Params) (m : Map) (g : Point) (D : Q) (i j : Z)
    (rest : list Z) (s : Q) (k : Z) :
  ray_loop sin cos hypot cfg m g D i (j :: rest) s k
  = (obstacle_cost <- get_local_max_cost m (sample_idx sin cos cfg m i j) ;;
     if obstacle_cost >? kThresObstacleDangerCost then Some (s, k)
     else
       v <- data_at m (sample_idx sin cos cfg m i j) ;;
       if v =? -1 then Some (s, k)
       else
         match candidate_score sin cos hypot cfg g D i j obstacle_cost with
         | Finite score =>
             if Qgtb score s
             then ray_loop sin cos hypot cfg m g D i rest score j
             else ray_loop sin cos hypot cfg m g D i rest s k
         | Minus_infinity | Not_a_number =>
             ray_loop sin cos hypot cfg m g D i rest s k
         end).
Proof. reflexivity. Qed.

(** With a divisor other than 0 the score is the number [score_value]. *)
Lemma candidate_score_finite (cfg : Params) (g : Point) (D : Q) (i j c : Z) :
  ~ (D == 0)%Q ->
  candidate_score sin cos hypot cfg g D i j c
  = Finite (score_value sin cos hypot cfg g D i j c).
Proof.
  intros HD. unfold candidate_score.
  destruct (Qeq_bool D 0) eqn:E; [|reflexivity].
  apply Qeq_bool_iff in E. contradiction.
Qed.

(** With the divisor 0 the score is not a number that exceeds anything. *)
Lemma candidate_score_zero_divisor (cfg : Params) (g : Point) (D : Q)
    (i j c : Z) :
  (D == 0)%Q ->
  candidate_score sin cos hypot cfg g D i j c = Minus_infinity \/
  candidate_score sin cos hypot cfg g D i j c = Not_a_number.
Proof.
  intros HD. unfold candidate_score.
  apply Qeq_bool_iff in HD. rewrite HD.
  destruct (Qeq_bool (dis_subgoal2finalgoal sin cos hypot cfg g i j) 0);
    [right|left]; reflexivity.
Qed.

Lemma scan_best_cons (cfg : Params) (m : Map) (g : Point) (D : Q) (i j : Z)
    (sampled : list Z) (s : Q) (k : Z) :
  scan_best sin cos hypot cfg m g D i (j :: sampled) (s, k)
  = scan_best sin cos hypot cfg m g D i sampled
      (if Qltb s (score_of sin cos hypot cfg m g D i j)
       then (score_of sin cos hypot cfg m g D i j, j) else (s, k)).
Proof. reflexivity. Qed.

(** A sample that ends the ray leaves the running values as they are. *)
Lemma ray_loop_stops (cfg : Params) (m : Map) (g : Point) (D : Q) (i j : Z)
    (rest : list Z) (s : Q) (k : Z) :
  sample_stops sin cos cfg m i j ->
  ray_loop sin cos hypot cfg m g D i (j :: rest) s k = Some (s, k).
Proof.
  intros (c & Hc & Hcase).
  rewrite ray_loop_cons, Hc. cbn [bind].
  destruct (c >? kThresObstacleDangerCost) eqn:E; [reflexivity|].
  destruct Hcase as [Hgt|Hraw]; [lia|].
  rewrite Hraw. reflexivity.
Qed.

Lemma ray_loop_extent (cfg : Params) (m : Map) (g : Point) (D : Q) (i : Z)
    (sampled rest : list Z) :
  ~ (D == 0)%Q ->
  Forall (sample_safe sin cos cfg m i) sampled ->
  match rest with
  | [] => True
  | j :: _ => sample_stops sin cos cfg m i j
  end ->
  forall (max_j_score : Q) (candidate_j : Z),
    ray_loop sin cos hypot cfg m g D i (sampled ++ rest) max_j_score candidate_j
    = Some (scan_best sin cos hypot cfg m g D i sampled
                      (max_j_score, candidate_j)).
Proof.
  intros HD Hsafe Hstop. induction Hsafe as [|j sampled Hj _ IH]; intros s k.
  - cbn [app]. destruct rest as [|j rest]; [reflexivity|].
    apply ray_loop_stops, Hstop.
  - destruct Hj as (c & v & Hc & Hle & Hv & Hknown).
    cbn [app]. rewrite ray_loop_cons, Hc. cbn [bind].
    destruct (c >? kThresObstacleDangerCost) eqn:E; [lia|].
    rewrite Hv. cbn [bind].
    destruct (v =? -1) eqn:Ev; [lia|].
    rewrite (candidate_score_finite cfg g D i j c HD).
    assert (Hscore : score_value sin cos hypot cfg g D i j c
                     = score_of sin cos hypot cfg m g D i j).
    { unfold score_of, sampled_cost. rewrite Hc. reflexivity. }
    rewrite Hscore, scan_best_cons.
    change (Qgtb (score_of sin cos hypot cfg m g D i j) s)
      with (Qltb s (score_of sin cos hypot cfg m g D i j)).
    destruct (Qltb s (score_of sin cos hypot cfg m g D i j)); apply IH.
Qed.

Lemma scan_best_spec (cfg : Params) (m : Map) (g : Point) (D : Q) (i : Z)
    (sampled : list Z) :
  forall (s : Q) (k : Z),
    let r := scan_best sin cos hypot cfg m g D i sampled (s, k) in
    (r = (s, k) /\
     forall j, In j sampled -> (score_of sin cos hypot cfg m g D i j <= s)%Q) \/
    (exists earlier later,
       sampled = earlier ++ snd r :: later /\
       fst r = score_of sin cos hypot cfg m g D i (snd r) /\
       (s < fst r)%Q /\
       (forall j, In j earlier ->
          (score_of sin cos hypot cfg m g D i j < fst r)%Q) /\
       (forall j, In j later ->
          (score_of sin cos hypot cfg m g D i j <= fst r)%Q)).
Proof.
  set (score := score_of sin cos hypot cfg m g D i).
  induction sampled as [|j sampled IH]; intros s k.
  - left. split; [reflexivity|]. intros j [].
  - rewrite scan_best_cons. fold score.
    destruct (Qltb s (score j)) eqn:E.
    + apply Qltb_true in E. right.
      destruct (IH (score j) j)
        as [[Heq Hall]|(earlier & later & Hsplit & Hfst & Hlt & Hearlier & Hlater)].
      * exists [], sampled. rewrite Heq. simpl.
        repeat split; [exact E| intros j' [] | exact Hall].
      * exists (j :: earlier), later. split; [simpl; now f_equal|].
        split; [exact Hfst|]. split; [eapply Qlt_trans; eassumption|].
        split; [|exact Hlater].
        intros j' [<-|Hin]; [exact Hlt|apply Hearlier, Hin].
    + apply Qltb_false in E.
      destruct (IH s k)
        as [[Heq Hall]|(earlier & later & Hsplit & Hfst & Hlt & Hearlier & Hlater)].
      * left. split; [exact Heq|].
        intros j' [<-|Hin]; [exact E|apply Hall, Hin].
      * right. exists (j :: earlier), later. split; [simpl; now f_equal|].
        split; [exact Hfst|]. split; [exact Hlt|]. split; [|exact Hlater].
        intros j' [<-|Hin]; [eapply Qle_lt_trans; eassumption|apply Hearlier, Hin].
Qed.

(** A ray whose extent is known ends with the outcome of its safe samples. *)
Lemma ray_spec (cfg : Params) (m : Map) (g : Point) (D : Q) (i : Z)
    (sampled rest : list Z) :
  ~ (D == 0)%Q ->
  ray_extent sin cos cfg m i sampled rest ->
  exists r,
    ray sin cos hypot cfg m g D i = Some r /\
    ray_outcome sin cos hypot cfg m g D i sampled r.
Proof.
  intros HD (Hsplit & Hsafe & Hstop).
  exists (scan_best sin cos hypot cfg m g D i sampled (0%Q, 0)). split.
  - unfold ray. rewrite Hsplit. apply ray_loop_extent; assumption.
  - unfold ray_outcome.
    destruct (scan_best_spec cfg m g D i sampled 0%Q 0)
      as [[Heq Hall]|(earlier & later & H)].
    + left. split; assumption.
    + right. exists earlier, later. exact H.
Qed.

(** A ray whose first sample ends it keeps score 0 and step 0. *)
Lemma ray_blocked (cfg : Params) (m : Map) (g : Point) (D : Q) (i : Z) :
  sample_stops sin cos cfg m i 3 ->
  ray sin cos hypot cfg m g D i = Some (0%Q, 0).
Proof.
  intros Hstop. unfold ray.
  change (Zrange 3 max_distance_idx)
    with (3 :: Zrange 4 max_distance_idx).
  apply ray_loop_stops, Hstop.
Qed.


Lemma nth_map_in_range {A B : Type} (f : A -> B) (l : list A) (k : nat)
    (d : A) (d' : B) :
  (k < List.length l)%nat -> nth k (map f l) d' = f (nth k l d).
Proof.
  intros Hk. rewrite (nth_indep (map f l) d' (f d)) by now rewrite length_map.
  apply map_nth.
Qed.

(** The score in the form [(1 - cost/100) + (1 - distanceToGoal / (2 D))]. *)
Lemma score_of_formula (cfg : Params) (m : Map) (g : Point) (D : Q) (i j : Z) :
  (score_of sin cos hypot cfg m g D i j
   == (1 - inject_Z (sampled_cost sin cos cfg m i j) / 100)
      + (1 - distance_to_goal sin cos hypot cfg g i j / (2 * D)))%Q.
Proof.
  unfold score_of, score_value, dis_subgoal2finalgoal, distance_to_goal.
  set (d := hypot _ _).
  destruct (Qeq_dec D 0) as [HD|HD].
  - rewrite HD. unfold Qdiv. rewrite Qmult_0_r.
    change (/ 0)%Q with 0%Q. ring.
  - field. exact HD.
Qed.

(** C10. When the search is entered and every ray ends with candidate score
    0 and distance step 0 (no ray sampled a safe cell), [generate_subgoal]
    returns the path-start offset point
    [(path_start_offsetx_, path_start_offsety_)]; with the default offsets
    (0.44, 0) that point is not the (0,0) point that the recovery fallback
    uses as its "not found" answer. *)
Theorem generate_subgoal_no_safe_cell (cfg : Params) (m : Map)
    (finalgoal : Point) (tf_base2odom : Transform) :
  let g := tf_apply (tf_inverse tf_base2odom) finalgoal in
  let D := hypot (px g) (py g) in
  goal_out_of_range m g = true ->
  (forall i, 2 <= i <= 16 ->
     ray sin cos hypot cfg m g D i = Some (0%Q, 0)) ->
  exists pt markers,
    generate_subgoal sin cos hypot cfg m finalgoal tf_base2odom
    = Some (pt, markers) /\
    (px pt == path_start_offsetx_ cfg)%Q /\
    (py pt == path_start_offsety_ cfg)%Q /\
    pz pt = 0%Q /\
    ((path_start_offsetx_ cfg == 44 # 100)%Q -> is_sentinel pt = false).
Proof.
  intros g D Hout Hrays.
  unfold generate_subgoal. fold g. fold D. rewrite Hout.
  rewrite (radial_search_outcome cfg m g D (fun _ => (0%Q, 0)) Hrays).
  cbn [bind].
  change (argmax (candidate_score_list
                    (search_of sin cos cfg (fun _ => (0%Q, 0)) (Zrange_down 16 2))))
    with 0%nat.
  rewrite (candidate_point_at cfg (fun _ => (0%Q, 0)) (Zrange_down 16 2) 0)
    by (simpl; lia).
  cbn [bind]. eexists. eexists. split; [reflexivity|].
  assert (Hx : forall i : Z,
            Qeq (px (ray_point sin cos cfg i 0%Z)) (path_start_offsetx_ cfg)).
  { intros i. unfold ray_point. cbn [px]. change (inject_Z 0) with 0%Q. ring. }
  cbn [snd]. split; [apply Hx|]. split; [|split; [reflexivity|]].
  - unfold ray_point. cbn [py]. change (inject_Z 0) with 0%Q. ring.
  - intros Hdef. unfold is_sentinel.
    apply andb_false_iff. left.
    destruct (Qeq_bool _ 0) eqn:E; [|reflexivity].
    apply Qeq_bool_iff in E. rewrite Hx, Hdef in E. discriminate E.
Qed.

(** X23. What the radial search computes when the goal is not at the robot
    ([dis_base2goal] is not 0) and no ray reads outside the grid. Each ray
    [i] (16 down to 2) visits the steps from 3 upwards until the first
    sample whose smoothed cost exceeds the danger threshold or whose own cell
    is -1; every safe sample is scored
    [(1 - cost/100) + (1 - distanceToGoal/(2 D))]; the ray records the first
    step whose score is the largest one above the initial [max_j_score] of
    0, and records score 0 and step 0 when no safe sample scores above 0.
    The point returned is the recorded point of the ray with the largest
    recorded score, the first such ray in the order 16 down to 2. *)
Theorem generate_subgoal_radial_search (cfg : Params) (m : Map)
    (finalgoal : Point) (tf_base2odom : Transform) :
  let g := tf_apply (tf_inverse tf_base2odom) finalgoal in
  let D := hypot (px g) (py g) in
  goal_out_of_range m g = true ->
  ~ (D == 0)%Q ->
  (forall i, 2 <= i <= 16 ->
     exists sampled rest, ray_extent sin cos cfg m i sampled rest) ->
  exists (outcome : Z -> Q * Z) (best : Z) (markers : list Marker),
    (forall i, 2 <= i <= 16 ->
       exists sampled rest,
         ray_extent sin cos cfg m i sampled rest /\
         ray_outcome sin cos hypot cfg m g D i sampled (outcome i)) /\
    (forall i j,
       (score_of sin cos hypot cfg m g D i j
        == (1 - inject_Z (sampled_cost sin cos cfg m i j) / 100)
           + (1 - distance_to_goal sin cos hypot cfg g i j / (2 * D)))%Q) /\
    2 <= best <= 16 /\
    (forall i, 2 <= i <= 16 -> (fst (outcome i) <= fst (outcome best))%Q) /\
    (forall i, best < i <= 16 -> (fst (outcome i) < fst (outcome best))%Q) /\
    generate_subgoal sin cos hypot cfg m finalgoal tf_base2odom
    = Some (ray_point sin cos cfg best (snd (outcome best)), markers).
Proof.
  intros g D Hout HD Hext.
  set (outcome := fun i =>
         match ray sin cos hypot cfg m g D i with
         | Some r => r
         | None => (0%Q, 0)
         end).
  assert (Hray : forall i, 2 <= i <= 16 ->
            ray sin cos hypot cfg m g D i = Some (outcome i)).
  { intros i Hi. destruct (Hext i Hi) as (sampled & rest & He).
    destruct (ray_spec cfg m g D i sampled rest HD He) as (r & Hr & _).
    unfold outcome. rewrite Hr. reflexivity. }
  set (scores := candidate_score_list
                   (search_of sin cos cfg outcome (Zrange_down 16 2))).
  assert (Hlen : List.length scores = 15%nat) by reflexivity.
  destruct (argmax_spec scores) as (Hk & Hmax & Hfirst).
  { intros Hnil. rewrite Hnil in Hlen. discriminate Hlen. }
  set (k := argmax scores) in *.
  assert (Hnth : forall n, (n < 15)%nat ->
            nth n scores 0%Q = fst (outcome (16 - Z.of_nat n))).
  { intros n Hn. unfold scores, search_of. cbn [candidate_score_list].
    rewrite (nth_map_in_range (fun i => fst (outcome i)) _ n 0 0%Q) by exact Hn.
    rewrite Zrange_down_16_2_nth by exact Hn. reflexivity. }
  exists outcome, (16 - Z.of_nat k).
  eexists. split; [|split; [|split; [|split; [|split]]]].
  - intros i Hi. destruct (Hext i Hi) as (sampled & rest & He).
    exists sampled, rest. split; [exact He|].
    destruct (ray_spec cfg m g D i sampled rest HD He) as (r & Hr & Ho).
    rewrite (Hray i Hi) in Hr. injection Hr as <-. exact Ho.
  - intros i j. apply score_of_formula.
  - lia.
  - intros i Hi. rewrite <- (Hnth k) by lia.
    replace i with (16 - Z.of_nat (Z.to_nat (16 - i))) by lia.
    rewrite <- Hnth by lia. apply Hmax. lia.
  - intros i Hi. rewrite <- (Hnth k) by lia.
    replace i with (16 - Z.of_nat (Z.to_nat (16 - i))) by lia.
    rewrite <- Hnth by lia. apply Hfirst. lia.
  - unfold generate_subgoal. fold g. fold D. rewrite Hout.
    rewrite (radial_search_outcome cfg m g D outcome Hray).
    cbn [bind]. fold scores. fold k.
    rewrite (candidate_point_at cfg outcome (Zrange_down 16 2) k) by exact Hk.
    cbn [bind]. rewrite Zrange_down_16_2_nth by lia. reflexivity.
Qed.

End Subgoal.

Lemma generate_subgoal_goal_in_range_witness :
  generate_subgoal sin_table cos_table hypot_approx default_params
                   scenario_a_map scenario_a_goal tf_identity
  = Some (mkPoint (2 + 0) (1 + 0) (0 + 0), [Mrk_subgoal scenario_a_goal]).
Proof.
  apply (generate_subgoal_goal_in_range sin_table cos_table hypot_approx
           default_params scenario_a_map scenario_a_goal tf_identity Node_init).
  - vm_compute. split; [discriminate|reflexivity].
  - vm_compute. split; [discriminate|reflexivity].
Defined.

(** ** The search on [rear_map] *)

Ltac ray_stops_at_once :=
  exists [], (Zrange 3 max_distance_idx);
  split; [reflexivity|]; split; [constructor|];
  eexists; split; [vm_compute; reflexivity|right; vm_compute; reflexivity].

Ltac ray_samples_one :=
  exists [3], [4; 5; 6; 7; 8; 9; 10; 11; 12; 13];
  split; [reflexivity|]; split;
  [ constructor; [|constructor];
    eexists; eexists; split; [vm_compute; reflexivity|];
    split; [vm_compute; discriminate|];
    split; [vm_compute; reflexivity|discriminate]
  | eexists; split; [vm_compute; reflexivity|right; vm_compute; reflexivity] ].

Lemma rear_map_extents (i : Z) :
  2 <= i <= 16 ->
  exists sampled rest,
    ray_extent sin_table cos_table default_params rear_map i sampled rest.
Proof.
  intros Hi.
  assert (Hcases : i = 2 \/ i = 3 \/ i = 4 \/ i = 5 \/ i = 6 \/ i = 7 \/ i = 8
                   \/ i = 9 \/ i = 10 \/ i = 11 \/ i = 12 \/ i = 13 \/ i = 14
                   \/ i = 15 \/ i = 16) by lia.
  repeat (destruct Hcases as [->|Hcases]; [first [ray_stops_at_once|ray_samples_one]|]).
  subst i. ray_stops_at_once.
Defined.

Lemma generate_subgoal_radial_search_witness :
  goal_out_of_range rear_map (tf_apply (tf_inverse tf_identity) goal_far) = true /\
  exists (best : Z) (step : Z) (markers : list Marker),
    2 <= best <= 16 /\
    generate_subgoal sin_table cos_table hypot_approx default_params
                     rear_map goal_far tf_identity
    = Some (ray_point sin_table cos_table default_params best step, markers).
Proof.
  split; [vm_compute; reflexivity|].
  destruct (generate_subgoal_radial_search sin_table cos_table hypot_approx
              default_params rear_map goal_far tf_identity)
    as (outcome & best & markers & _ & _ & Hbest & _ & _ & Hgen).
  - vm_compute. reflexivity.
  - vm_compute. discriminate.
  - exact rear_map_extents.
  - exists best, (snd (outcome best)), markers. split; [exact Hbest|exact Hgen].
Defined.

(** On [rear_map] with the goal at the robot [dis_base2goal] is 0: the safe
    samples of rays 10, 9 and 8 score -infinity, none is kept, and the
    path-start offset point is returned. *)
Example generate_subgoal_rear_map_goal_at_robot :
  option_map fst
    (generate_subgoal sin_table cos_table hypot_approx default_params
                      rear_map goal_at_robot tf_identity)
  = Some (ray_point sin_table cos_table default_params 16 0) /\
  candidate_score sin_table cos_table hypot_approx default_params
                  goal_at_robot 0 9 3 0 = Minus_infinity.
Proof. split; vm_compute; reflexivity. Qed.

(** On [rear_map] with the goal 10 m ahead, rays 10, 9 and 8 each sample one
    safe cell; ray 9 scores highest and its candidate at step 3 is
    returned. *)
Example generate_subgoal_rear_map_far_goal :
  option_map fst
    (generate_subgoal sin_table cos_table hypot_approx default_params
                      rear_map goal_far tf_identity)
  = Some (ray_point sin_table cos_table default_params 9 3).
Proof. vm_compute. reflexivity. Qed.


Lemma generate_subgoal_no_safe_cell_witness :
  goal_out_of_range rear_map_unknown (tf_apply (tf_inverse tf_identity) goal_far)
  = true /\
  exists pt markers,
    generate_subgoal sin_table cos_table hypot_approx default_params
                     rear_map_unknown goal_far tf_identity
    = Some (pt, markers) /\
    (px pt == 44 # 100)%Q /\ (py pt == 0)%Q /\ is_sentinel pt = false.
Proof.
  split; [vm_compute; reflexivity|].
  destruct (generate_subgoal_no_safe_cell sin_table cos_table hypot_approx
              default_params rear_map_unknown goal_far tf_identity)
    as (pt & markers & Hgen & Hx & Hy & _ & Hsent).
  - vm_compute. reflexivity.
  - intros i Hi. apply ray_blocked.
    assert (Hcases : i = 2 \/ i = 3 \/ i = 4 \/ i = 5 \/ i = 6 \/ i = 7 \/ i = 8
                     \/ i = 9 \/ i = 10 \/ i = 11 \/ i = 12 \/ i = 13 \/ i = 14
                     \/ i = 15 \/ i = 16) by lia.
    repeat (destruct Hcases as [->|Hcases];
            [eexists; split; [vm_compute; reflexivity|right; vm_compute; reflexivity]|]).
    subst i. eexists; split; [vm_compute; reflexivity|right; vm_compute; reflexivity].
  - exists pt, markers. split; [exact Hgen|]. split; [exact Hx|].
    split; [exact Hy|]. apply Hsent. reflexivity.
Defined.

(** * The decision cycle *)

Section Cycle.

Variable sin : Q -> Q.
Variable cos : Q -> Q.
Variable hypot : Q -> Q -> Q.
Variable GetFootprintCells : option Footprint -> Map -> list (Z * Z).
Variable FindPathByHashmap : Map -> Path -> Z -> Z -> Q -> bool * Path.

(** ** Equations of the callback monad *)

Lemma seq_get {B : Type} (k : Node -> Cb B) (s : Node) :
  seq_cb get k s = k s s.
Proof.
  unfold seq_cb, get. destruct (k s s) as [[[b s2] t2]|]; reflexivity.
Qed.

Lemma seq_ret {A B : Type} (a : A) (k : A -> Cb B) (s : Node) :
  seq_cb (ret a) k s = k a s.
Proof.
  unfold seq_cb, ret. destruct (k a s) as [[[b s2] t2]|]; reflexivity.
Qed.

Lemma seq_lift {A B : Type} (o : option A) (a : A) (k : A -> Cb B) (s : Node) :
  o = Some a -> seq_cb (lift o) k s = k a s.
Proof.
  intros ->. unfold seq_cb, lift. destruct (k a s) as [[[b s2] t2]|]; reflexivity.
Qed.

Lemma seq_assign {B : Type} (f : Node -> Node) (k : unit -> Cb B) (s : Node) :
  seq_cb (assign f) k s
  = match k tt (f s) with
    | Some (b, s2, t2) => Some (b, s2, Assign (f s) :: t2)
    | None => None
    end.
Proof. reflexivity. Qed.

Lemma seq_emit {B : Type} (e : Event) (k : unit -> Cb B) (s : Node) :
  seq_cb (emit e) k s
  = match k tt s with
    | Some (b, s2, t2) => Some (b, s2, e :: t2)
    | None => None
    end.
Proof. reflexivity. Qed.

Lemma set_busy_false_idle (s : Node) :
  flag_planning_busy_ s = false -> set_busy false (set_busy true s) = s.
Proof.
  destruct s as [a b c d e f]. simpl. intros ->. reflexivity.
Qed.

(** C5. In a timer cycle that starts idle with a map and a goal present,
    whose predicates evaluate without undefined behaviour and whose footprint
    predicate answers unsafe, the callback sets the busy flag, publishes the
    empty path, publishes the status "Collision detected", clears the flag
    and returns: the node after is the node before (goal and path
    retained, flag released) and the solver is not called. *)
Theorem timer_cb_collision (cfg : Params) (env : Env) (s : Node) (m : Map)
    (finalgoal : Point) (subgoal_safe path_safe following : bool) :
  flag_planning_busy_ s = false ->
  localmap_ptr_ s = Some m ->
  finalgoal_ptr_ s = Some finalgoal ->
  is_footprint_safe GetFootprintCells m (footprint_ptr_ s) = Some false ->
  is_subgoal_safe m (walkable_path_ptr_ s) (tf_inverse (tf_base2odom_ env))
  = Some subgoal_safe ->
  is_path_safe m (walkable_path_ptr_ s) (tf_inverse (tf_base2odom_ env))
  = Some path_safe ->
  is_robot_following_path (walkable_path_ptr_ s)
    (tracking_progress_percentage_ s) (tf_inverse (tf_base2odom_ env))
  = Some following ->
  timer_cb sin cos hypot GetFootprintCells FindPathByHashmap cfg env s
  = Some (tt, s,
          [Assign (set_busy true s);
           Publish_walkable_path (empty_path cfg);
           Publish_robot_status "Collision detected";
           Assign s]) /\
  poses (empty_path cfg) = [] /\
  (forall origin_idx target_idx,
     ~ In (Call_solver origin_idx target_idx)
          [Assign (set_busy true s);
           Publish_walkable_path (empty_path cfg);
           Publish_robot_status "Collision detected";
           Assign s]).
Proof.
  intros Hidle Hmap Hgoal Hfoot Hsub Hpath Hfollow.
  split; [|split; [reflexivity|]].
  - unfold timer_cb. rewrite seq_get, Hidle, seq_assign, Hmap, Hgoal.
    rewrite (seq_lift _ _ _ _ Hfoot).
    rewrite (seq_lift _ _ _ _ Hsub).
    rewrite (seq_lift _ _ _ _ Hpath).
    rewrite (seq_lift _ _ _ _ Hfollow).
    cbn [negb]. unfold publish_robot_status_marker.
    rewrite seq_emit, seq_emit. unfold assign.
    rewrite (set_busy_false_idle s Hidle). reflexivity.
  - intros o t [H|[H|[H|[H|[]]]]]; discriminate H.
Qed.


(** ** The busy flag *)
































End Cycle.

Lemma timer_cb_collision_witness :
  timer_cb sin_table cos_table hypot_approx footprint_on_robot_cell solver_fails
           default_params env0 node_with_goal
  = Some (tt, node_with_goal,
          [Assign (set_busy true node_with_goal);
           Publish_walkable_path (empty_path default_params);
           Publish_robot_status "Collision detected";
           Assign node_with_goal]).
Proof.
  apply (timer_cb_collision sin_table cos_table hypot_approx
           footprint_on_robot_cell solver_fails default_params env0
           node_with_goal rear_map goal_far false false false);
    reflexivity.
Defined.


(** In the run [example_msgs] the flag is set by the two decision cycles
    only, both maps are accepted, and the node ends idle on the second
    map. *)
Example spin_example_msgs :
  option_map
    (fun r => (map flag_planning_busy_ (assigned (events_of r)),
               flag_planning_busy_ (node_of r),
               localmap_ptr_ (node_of r)))
    (spin sin_table cos_table hypot_approx footprint_nowhere solver_fails
          default_params example_msgs Node_init)
  = Some ([false; true; true; true; true; true; true; true; false;
           true; false; false],
          false, Some rear_map_unknown).
Proof. vm_compute. reflexivity. Qed.

(** A map that arrives while the flag is set is dropped. *)
Example localmap_cb_while_busy :
  localmap_cb rear_map (set_busy true Node_init)
  = Some (tt, set_busy true Node_init, []).
Proof. reflexivity. Qed.

(** * More on the local cost kernel *)

Lemma fold_left_flat_map {A B S : Type} (f : S -> B -> S) (g : A -> list B)
    (l : list A) (s : S) :
  fold_left f (flat_map g l) s
  = fold_left (fun s a => fold_left f (g a) s) l s.
Proof.
  revert s. induction l as [|a l IH]; intros s; [reflexivity|].
  cbn [flat_map fold_left]. rewrite fold_left_app. apply IH.
Qed.

Lemma fold_left_map {A B S : Type} (f : S -> B -> S) (g : A -> B)
    (l : list A) (s : S) :
  fold_left f (map g l) s = fold_left (fun s a => f s (g a)) l s.
Proof.
  revert s. induction l as [|a l IH]; intros s; [reflexivity|].
  cbn [map fold_left]. apply IH.
Qed.

Lemma fold_left_pointwise {A S : Type} (f g : S -> A -> S) (l : list A) (s : S) :
  (forall s a, f s a = g s a) -> fold_left f l s = fold_left g l s.
Proof.
  intros H. revert s. induction l as [|a l IH]; intros s; [reflexivity|].
  cbn [fold_left]. rewrite H. apply IH.
Qed.

Lemma for_window_indices {S : Type} (m : Map) (bound target_idx : Z)
    (step : Z -> S -> S) (s : S) :
  for_window bound (fun y x => step (target_idx + x + width m * y)) s
  = fold_left (fun s op => step op s) (window_indices m bound target_idx) s.
Proof.
  unfold for_window, window_indices. rewrite fold_left_flat_map.
  apply fold_left_pointwise. intros s' y. rewrite fold_left_map. reflexivity.
Qed.

Lemma max_cost_scan_fold (m : Map) (target_idx : Z) :
  get_local_max_cost_scan m target_idx
  = fold_left
      (fun s op => max_cost_step m (kernel_bound (6 # 10) m) target_idx op s)
      (window_indices m (kernel_bound (6 # 10) m) target_idx)
      (mkScan [] (Some 0)).
Proof.
  unfold get_local_max_cost_scan.
  exact (for_window_indices m (kernel_bound (6 # 10) m) target_idx
           (max_cost_step m (kernel_bound (6 # 10) m) target_idx)
           (mkScan [] (Some 0))).
Qed.

Lemma avg_cost_scan_fold (m : Map) (target_idx : Z) :
  get_local_avg_cost_scan m target_idx
  = fold_left
      (fun s op => avg_cost_step m (kernel_bound 1 m) target_idx op s)
      (window_indices m (kernel_bound 1 m) target_idx)
      (mkScan [] (Some 0)).
Proof.
  unfold get_local_avg_cost_scan.
  exact (for_window_indices m (kernel_bound 1 m) target_idx
           (avg_cost_step m (kernel_bound 1 m) target_idx)
           (mkScan [] (Some 0))).
Qed.

Lemma max_cost_fold_reads (m : Map) (bound target_idx : Z) (l : list Z) (s : Scan) :
  reads (fold_left (fun s op => max_cost_step m bound target_idx op s) l s)
  = rev (filter (fun op => negb (skip_cell m bound target_idx op)) l) ++ reads s.
Proof.
  revert s. induction l as [|op l IH]; intros s; [reflexivity|].
  cbn [fold_left filter]. rewrite IH. unfold max_cost_step.
  destruct (skip_cell m bound target_idx op); cbn [negb]; [reflexivity|].
  cbn [rev reads]. rewrite <- app_assoc. reflexivity.
Qed.

Lemma avg_cost_fold_reads (m : Map) (bound target_idx : Z) (l : list Z) (s : Scan) :
  reads (fold_left (fun s op => avg_cost_step m bound target_idx op s) l s)
  = rev (filter (fun op => negb (skip_cell m bound target_idx op)) l) ++ reads s.
Proof.
  revert s. induction l as [|op l IH]; intros s; [reflexivity|].
  cbn [fold_left filter]. rewrite IH. unfold avg_cost_step.
  destruct (skip_cell m bound target_idx op); cbn [negb]; [reflexivity|].
  cbn [rev reads]. rewrite <- app_assoc. reflexivity.
Qed.

Lemma In_Zrange (lo hi k : Z) : In k (Zrange lo hi) <-> lo <= k <= hi.
Proof.
  unfold Zrange. rewrite in_map_iff. split.
  - intros (n & <- & Hn). apply in_seq in Hn. lia.
  - intros Hk. exists (Z.to_nat (k - lo)). split; [lia|].
    apply in_seq. lia.
Qed.

Lemma In_window_indices (m : Map) (bound target_idx op : Z) :
  In op (window_indices m bound target_idx) <->
  exists x y, - bound <= x <= bound /\ - bound <= y <= bound /\
              op = target_idx + x + width m * y.
Proof.
  unfold window_indices. rewrite in_flat_map. split.
  - intros (y & Hy & Hop). apply in_map_iff in Hop. destruct Hop as (x & <- & Hx).
    exists x, y. rewrite In_Zrange in Hx, Hy. auto.
  - intros (x & y & Hx & Hy & ->). exists y. split; [now apply In_Zrange|].
    apply in_map_iff. exists x. split; [reflexivity|now apply In_Zrange].
Qed.

Lemma skip_cell_within (m : Map) (bound target_idx op_idx : Z) :
  skip_cell m bound target_idx op_idx = false <->
  within_window m bound target_idx op_idx.
Proof.
  split; [apply skip_cell_false|].
  unfold skip_cell, within_window, column, max_map_idx. intros [Hr Hc].
  destruct (op_idx <? 0) eqn:Hlo; [lia|].
  destruct (op_idx >? width m * height m - 1) eqn:Hhi; [lia|].
  cbn [orb]. lia.
Qed.

Lemma In_filter_window (m : Map) (bound target_idx op : Z) :
  In op (rev (filter (fun op => negb (skip_cell m bound target_idx op))
                     (window_indices m bound target_idx)) ++ []) <->
  (exists x y, - bound <= x <= bound /\ - bound <= y <= bound /\
               op = target_idx + x + width m * y) /\
  within_window m bound target_idx op.
Proof.
  rewrite app_nil_r, <- in_rev, filter_In, In_window_indices.
  rewrite negb_true_iff, skip_cell_within. reflexivity.
Qed.

(** The scan of [get_local_max_cost] reads exactly the surviving window
    cells. *)
Lemma max_cost_scan_reads (m : Map) (target_idx op : Z) :
  In op (reads (get_local_max_cost_scan m target_idx)) <->
  window_cell m (kernel_bound (6 # 10) m) target_idx op.
Proof.
  rewrite max_cost_scan_fold, max_cost_fold_reads. apply In_filter_window.
Qed.

(** C7, as the code has it. On a well-formed grid [get_local_max_cost] is
    defined for every centre index, in or out of range, and its result is
    the largest of 0 and the costs of the surviving window cells, the cells
    [target_idx + x + width * y] with [x] and [y] in [-bound, bound] that
    pass both rejections: it is non-negative, it bounds the cost of every
    surviving cell, and it is 0 or the cost of a surviving cell. So it is 0
    when no window cell survives and when every surviving cell is free or
    unknown. *)
Theorem get_local_max_cost_total (m : Map) (target_idx : Z) :
  wf_map m ->
  exists c,
    get_local_max_cost m target_idx = Some c /\
    0 <= c /\
    (forall op, window_cell m (kernel_bound (6 # 10) m) target_idx op ->
       exists v, data_at m op = Some v /\ v <= c) /\
    (c = 0 \/
     exists op, window_cell m (kernel_bound (6 # 10) m) target_idx op /\
                data_at m op = Some c) /\
    ((forall op, ~ window_cell m (kernel_bound (6 # 10) m) target_idx op) ->
     c = 0) /\
    ((forall op v, window_cell m (kernel_bound (6 # 10) m) target_idx op ->
        data_at m op = Some v -> v <= 0) -> c = 0).
Proof.
  intros Hwf.
  destruct (max_cost_scan_inv m target_idx Hwf) as (c & Hc & Hpos & Hub & Hatt).
  assert (Hatt' : c = 0 \/
            exists op, window_cell m (kernel_bound (6 # 10) m) target_idx op /\
                       data_at m op = Some c).
  { destruct Hatt as [H0|(op & Hin & Hop)]; [now left|].
    right. exists op. split; [apply max_cost_scan_reads, Hin|exact Hop]. }
  exists c. split; [exact Hc|]. split; [exact Hpos|].
  split; [|split; [exact Hatt'|split]].
  - intros op Hop. apply Hub, max_cost_scan_reads, Hop.
  - intros Hnone. destruct Hatt' as [H0|(op & Hop & _)]; [exact H0|].
    destruct (Hnone op Hop).
  - intros Hfree. destruct Hatt' as [H0|(op & Hop & Hv)]; [exact H0|].
    specialize (Hfree op c Hop Hv). lia.
Qed.

Lemma get_local_max_cost_total_witness :
  wf_map grid3_occupied /\
  get_local_max_cost grid3_occupied 4 = Some 100 /\
  (forall op,
     window_cell grid3_occupied (kernel_bound (6 # 10) grid3_occupied) 4 op ->
     exists v, data_at grid3_occupied op = Some v /\ v <= 100).
Proof.
  assert (Hwf : wf_map grid3_occupied) by (unfold wf_map; simpl; lia).
  split; [exact Hwf|].
  destruct (get_local_max_cost_total grid3_occupied 4 Hwf)
    as (c & Hc & _ & Hub & _).
  assert (Hval : get_local_max_cost grid3_occupied 4 = Some 100)
    by (vm_compute; reflexivity).
  assert (H100 : c = 100) by congruence.
  subst c. split; [exact Hval|exact Hub].
Defined.

(** X1. The cells at which the two scans read [data] are exactly the cells
    [target_idx + x + width * y] with [x] and [y] in [-bound, bound] that lie
    in the linear index range and in the column band of the centre: no such
    cell is left out. *)
Theorem window_scans_read_whole_window (m : Map) (target_idx op : Z) :
  (In op (reads (get_local_max_cost_scan m target_idx)) <->
   (exists x y,
      - kernel_bound (6 # 10) m <= x <= kernel_bound (6 # 10) m /\
      - kernel_bound (6 # 10) m <= y <= kernel_bound (6 # 10) m /\
      op = target_idx + x + width m * y) /\
   within_window m (kernel_bound (6 # 10) m) target_idx op) /\
  (In op (reads (get_local_avg_cost_scan m target_idx)) <->
   (exists x y,
      - kernel_bound 1 m <= x <= kernel_bound 1 m /\
      - kernel_bound 1 m <= y <= kernel_bound 1 m /\
      op = target_idx + x + width m * y) /\
   within_window m (kernel_bound 1 m) target_idx op).
Proof.
  split.
  - rewrite max_cost_scan_fold, max_cost_fold_reads. apply In_filter_window.
  - rewrite avg_cost_scan_fold, avg_cost_fold_reads. apply In_filter_window.
Qed.

Lemma Zrem_bound_neg (a b : Z) : a <= 0 -> 0 < b -> - b < Z.rem a b <= 0.
Proof.
  intros Ha Hb.
  pose proof (Z.rem_bound_pos (- a) b ltac:(lia) Hb) as H.
  rewrite Z.rem_opp_l in H by lia. lia.
Qed.

Lemma kernel_size_Odd (radius : Q) (m : Map) :
  exists q, kernel_size radius m = 2 * q + 1.
Proof.
  unfold kernel_size. set (f := Qfloor (radius / resolution m)).
  pose proof (Z.quot_rem' f 2) as Hqr.
  destruct (Z.rem f 2 =? 0) eqn:E.
  - exists (Z.quot f 2). lia.
  - destruct (Z_le_gt_dec 0 f) as [Hpos|Hneg].
    + pose proof (Z.rem_bound_pos f 2 Hpos ltac:(lia)). exists (Z.quot f 2). lia.
    + pose proof (Zrem_bound_neg f 2 ltac:(lia) ltac:(lia)).
      exists (Z.quot f 2 - 1). lia.
Qed.

Lemma kernel_size_positive (radius : Q) (m : Map) :
  (0 <= radius)%Q -> (0 < resolution m)%Q ->
  1 <= kernel_size radius m /\
  0 <= kernel_bound radius m /\
  2 * kernel_bound radius m + 1 = kernel_size radius m.
Proof.
  intros Hr Hres.
  assert (Hf : 0 <= Qfloor (radius / resolution m)).
  { rewrite <- (Qfloor_Z 0). apply Qfloor_resp_le.
    apply Qle_shift_div_l; [exact Hres|]. rewrite Qmult_0_l. exact Hr. }
  assert (Hk : 1 <= kernel_size radius m).
  { unfold kernel_size. destruct (Z.rem _ 2 =? 0) eqn:E; [lia|].
    assert (Qfloor (radius / resolution m) <> 0).
    { intros H0. rewrite H0 in E. discriminate E. }
    lia. }
  destruct (kernel_size_Odd radius m) as [q Hq].
  unfold kernel_bound.
  pose proof (Z.quot_rem' (kernel_size radius m) 2) as Hqr.
  pose proof (Z.rem_bound_pos (kernel_size radius m) 2 ltac:(lia) ltac:(lia)).
  lia.
Qed.

Lemma length_Zrange (lo hi : Z) :
  List.length (Zrange lo hi) = Z.to_nat (hi - lo + 1).
Proof. unfold Zrange. rewrite length_map, length_seq. reflexivity. Qed.

Lemma length_window_indices (m : Map) (bound target_idx : Z) :
  0 <= bound ->
  Z.of_nat (List.length (window_indices m bound target_idx))
  = (2 * bound + 1) * (2 * bound + 1).
Proof.
  intros Hb. unfold window_indices.
  assert (H : forall (ys xs : list Z),
             List.length (flat_map
                       (fun y => map (fun x => target_idx + x + width m * y) xs) ys)
             = (List.length ys * List.length xs)%nat).
  { intros ys xs. induction ys as [|y ys IH]; [reflexivity|].
    cbn [flat_map]. rewrite length_app, length_map, IH. reflexivity. }
  rewrite H, length_Zrange. lia.
Qed.

Lemma within_window_centre (m : Map) (bound idx : Z) :
  0 <= bound -> 0 <= idx <= width m * height m - 1 ->
  within_window m bound idx idx.
Proof.
  intros Hb Hidx. split; [exact Hidx|]. rewrite Z.sub_diag. simpl. exact Hb.
Qed.

Lemma data_at_in_range (m : Map) (idx v : Z) :
  wf_map m -> data_at m idx = Some v -> 0 <= idx <= width m * height m - 1.
Proof.
  intros (_ & _ & Hlen) H. unfold data_at in H.
  destruct (idx <? 0) eqn:E; [discriminate H|].
  assert (Hlt : (Z.to_nat idx < List.length (data m))%nat).
  { apply nth_error_Some. congruence. }
  lia.
Qed.

(** X2. On a well-formed grid with a positive resolution, a cell that the
    safety test [get_local_max_cost(map, idx) >= 80 || data[idx] < 0] accepts
    is itself known and below the danger threshold: the smoothed cost is at
    least the cost of the cell itself, because the centre of the window is
    always read. *)
Theorem accepted_cell_is_free (m : Map) (idx : Z) :
  wf_map m -> (0 < resolution m)%Q ->
  cell_unsafe m idx = Some false ->
  exists c v,
    get_local_max_cost m idx = Some c /\
    data_at m idx = Some v /\
    0 <= v <= c /\ c < kThresObstacleDangerCost.
Proof.
  intros Hwf Hres Hsafe. unfold cell_unsafe in Hsafe.
  destruct (get_local_max_cost m idx) as [c|] eqn:Hc; [|discriminate Hsafe].
  cbn [bind] in Hsafe.
  destruct (c >=? kThresObstacleDangerCost) eqn:Hge; [discriminate Hsafe|].
  destruct (data_at m idx) as [v|] eqn:Hv; [|discriminate Hsafe].
  cbn [bind] in Hsafe. injection Hsafe as Hneg.
  exists c, v. split; [reflexivity|]. split; [reflexivity|].
  destruct (kernel_size_positive (6 # 10) m ltac:(discriminate) Hres) as (_ & Hb & _).
  assert (Hin : In idx (reads (get_local_max_cost_scan m idx))).
  { rewrite max_cost_scan_fold, max_cost_fold_reads. apply In_filter_window.
    split.
    - exists 0, 0. lia.
    - apply within_window_centre; [exact Hb|].
      eapply data_at_in_range; eassumption. }
  destruct (max_cost_scan_inv m idx Hwf) as (c' & Hc' & _ & Hub & _).
  unfold get_local_max_cost in Hc. rewrite Hc in Hc'. injection Hc' as <-.
  destruct (Hub idx Hin) as (v' & Hv' & Hle). rewrite Hv in Hv'.
  injection Hv' as <-. lia.
Qed.

Lemma accepted_cell_is_free_witness :
  exists c v,
    get_local_max_cost corridor4 2 = Some c /\
    data_at corridor4 2 = Some v /\
    0 <= v <= c /\ c < kThresObstacleDangerCost.
Proof.
  apply (accepted_cell_is_free corridor4 2).
  - unfold wf_map. simpl. lia.
  - reflexivity.
  - vm_compute. reflexivity.
Defined.

Lemma data_at_cost_range (m : Map) (idx v : Z) :
  costs_in_range m -> data_at m idx = Some v -> -1 <= v <= 100.
Proof.
  intros Hr H. unfold data_at in H.
  destruct (idx <? 0); [discriminate H|].
  apply nth_error_In in H. unfold costs_in_range in Hr.
  rewrite Forall_forall in Hr. apply Hr, H.
Qed.

Lemma avg_cost_fold_sum (m : Map) (bound target_idx : Z) (l : list Z) :
  wf_map m -> costs_in_range m ->
  forall (s : Scan) (c : Z),
    cost s = Some c ->
    exists c',
      cost (fold_left (fun s op => avg_cost_step m bound target_idx op s) l s)
      = Some c' /\
      c - Z.of_nat (List.length l) <= c' <= c + 100 * Z.of_nat (List.length l).
Proof.
  intros Hwf Hr. induction l as [|op l IH]; intros s c Hc.
  - exists c. split; [exact Hc|]. simpl. lia.
  - cbn [fold_left]. unfold avg_cost_step at 2.
    destruct (skip_cell m bound target_idx op) eqn:E.
    + destruct (IH s c Hc) as (c' & Hc' & Hb). exists c'. split; [exact Hc'|].
      cbn [List.length]. lia.
    + apply skip_cell_false in E. destruct E as [Hrange _].
      destruct (data_at_defined m op Hwf Hrange) as [v Hv].
      pose proof (data_at_cost_range m op v Hr Hv) as Hvr.
      destruct (IH (mkScan (op :: reads s)
                           (c0 <- cost s ;; v0 <- data_at m op ;; Some (c0 + v0)))
                   (c + v)) as (c' & Hc' & Hb).
      { cbn [cost]. rewrite Hc, Hv. reflexivity. }
      exists c'. split; [exact Hc'|]. cbn [List.length]. lia.
Qed.

(** X3. On a well-formed grid whose cells hold costs in [-1, 100], both
    smoothed costs are defined for every centre index and stay in the cost
    range: [get_local_max_cost] in [0, 100], and, for a positive resolution,
    [get_local_avg_cost] in [-1, 100] although it divides the sum of the
    surviving cells by the full window size. *)
Theorem smoothed_costs_in_range (m : Map) (target_idx : Z) :
  wf_map m -> costs_in_range m -> (0 < resolution m)%Q ->
  (exists c, get_local_max_cost m target_idx = Some c /\ 0 <= c <= 100) /\
  (exists a, get_local_avg_cost m target_idx = Some a /\ -1 <= a <= 100).
Proof.
  intros Hwf Hr Hres. split.
  - destruct (max_cost_scan_inv m target_idx Hwf) as (c & Hc & Hpos & _ & Hatt).
    exists c. split; [exact Hc|]. split; [exact Hpos|].
    destruct Hatt as [->|(op & _ & Hop)]; [lia|].
    pose proof (data_at_cost_range m op c Hr Hop). lia.
  - destruct (kernel_size_positive 1 m ltac:(discriminate) Hres) as (Hk & Hb & Hkb).
    destruct (avg_cost_fold_sum m (kernel_bound 1 m) target_idx
                (window_indices m (kernel_bound 1 m) target_idx) Hwf Hr
                (mkScan [] (Some 0)) 0 eq_refl) as (c & Hc & Hbound).
    rewrite (length_window_indices m (kernel_bound 1 m) target_idx Hb), Hkb in Hbound.
    unfold get_local_avg_cost. rewrite avg_cost_scan_fold, Hc. cbn [bind].
    eexists. split; [reflexivity|].
    set (n := kernel_size 1 m * kernel_size 1 m) in *.
    assert (Hn : 0 < n) by (subst n; nia).
    pose proof (Z.quot_rem' c n) as Hqr.
    destruct (Z_le_gt_dec 0 c) as [Hc0|Hc0].
    + pose proof (Z.rem_bound_pos c n Hc0 Hn). nia.
    + pose proof (Zrem_bound_neg c n ltac:(lia) Hn). nia.
Qed.

Lemma smoothed_costs_in_range_witness :
  (exists c, get_local_max_cost grid3_centre 0 = Some c /\ 0 <= c <= 100) /\
  (exists a, get_local_avg_cost grid3_centre 0 = Some a /\ -1 <= a <= 100).
Proof.
  apply (smoothed_costs_in_range grid3_centre 0).
  - unfold wf_map. simpl. lia.
  - unfold costs_in_range, grid3_centre. cbn [data].
    repeat (constructor; [lia|]). constructor.
  - reflexivity.
Defined.

(** At the corner of [grid3_centre] the window of the average (0.2 m cells,
    kernel 5 x 5) is wider than the grid: the occupied centre cell 4 is
    reached by the two offsets (1, 1) and (-2, 2), both within the column
    band, so the sum is 200 and the result 200 / 25. The maximum over the
    3 x 3 window is 100. *)
Example smoothed_costs_at_corner :
  get_local_avg_cost grid3_centre 0 = Some 8 /\
  get_local_max_cost grid3_centre 0 = Some 100.
Proof. split; vm_compute; reflexivity. Qed.

(** X4. [kernel_size] is odd for every radius and resolution, so the divisor
    [kernel_size * kernel_size] of [get_local_avg_cost] is never zero; for a
    positive resolution the window is symmetric ([kernel_size = 2 * bound +
    1]) and the two loops visit exactly [kernel_size * kernel_size]
    offsets. *)
Theorem kernel_size_is_odd (radius : Q) (m : Map) (target_idx : Z) :
  Z.odd (kernel_size radius m) = true /\
  kernel_size radius m * kernel_size radius m <> 0 /\
  ((0 <= radius)%Q -> (0 < resolution m)%Q ->
   kernel_size radius m = 2 * kernel_bound radius m + 1 /\
   Z.of_nat (List.length (window_indices m (kernel_bound radius m) target_idx))
   = kernel_size radius m * kernel_size radius m).
Proof.
  destruct (kernel_size_Odd radius m) as [q Hq].
  split; [|split].
  - rewrite Hq, Z.add_comm, Z.odd_add_mul_2. reflexivity.
  - nia.
  - intros Hr Hres.
    destruct (kernel_size_positive radius m Hr Hres) as (_ & Hb & Hkb).
    split; [lia|]. rewrite length_window_indices by exact Hb.
    rewrite Hkb. reflexivity.
Qed.

(** * More on the safety predicates *)

(** X5. [argmax] returns 0 on an empty range and otherwise the position of
    the first largest element: no element is larger and every element before
    it is strictly smaller. *)
Theorem argmax_first_largest :
  argmax [] = 0%nat /\
  forall (x : Q) (rest : list Q),
    (argmax (x :: rest) < List.length (x :: rest))%nat /\
    (forall n, (n < List.length (x :: rest))%nat ->
       (nth n (x :: rest) 0 <= nth (argmax (x :: rest)) (x :: rest) 0)%Q) /\
    (forall n, (n < argmax (x :: rest))%nat ->
       (nth n (x :: rest) 0 < nth (argmax (x :: rest)) (x :: rest) 0)%Q).
Proof.
  split; [reflexivity|]. intros x rest. apply argmax_spec. discriminate.
Qed.

Lemma cell_unsafe_false_iff (m : Map) (tf : Transform) (wp : Point) :
  cell_unsafe m (point_idx m (tf_apply tf wp)) = Some false <->
  waypoint_qualifies m tf wp.
Proof.
  split; [|apply cell_unsafe_qualifies].
  unfold cell_unsafe, waypoint_qualifies. cbv zeta.
  destruct (get_local_max_cost m _) as [c|]; [|discriminate]. cbn [bind].
  destruct (c >=? kThresObstacleDangerCost) eqn:E; [discriminate|].
  destruct (data_at m _) as [v|]; [|discriminate]. cbn [bind].
  intros H. injection H as H. exists c, v. repeat split; lia.
Qed.

Lemma cell_unsafe_true_iff (m : Map) (tf : Transform) (wp : Point) :
  cell_unsafe m (point_idx m (tf_apply tf wp)) = Some true <->
  waypoint_rejected m tf wp.
Proof.
  split; [|apply cell_unsafe_rejected].
  unfold cell_unsafe, waypoint_rejected. cbv zeta.
  destruct (get_local_max_cost m _) as [c|]; [|discriminate]. cbn [bind].
  destruct (c >=? kThresObstacleDangerCost) eqn:E.
  - intros _. exists c. split; [reflexivity|left; lia].
  - destruct (data_at m _) as [v|]; [|discriminate]. cbn [bind].
    intros H. injection H as H. exists c. split; [reflexivity|].
    right. exists v. split; [reflexivity|lia].
Qed.

Lemma is_path_safe_unfold (m : Map) (path : Path) (tf : Transform) :
  poses path <> [] ->
  is_path_safe m (Some path) tf = is_path_safe_loop m tf (poses path).
Proof.
  unfold is_path_safe. destruct (poses path); [congruence|reflexivity].
Qed.

Lemma is_path_safe_loop_true (m : Map) (tf : Transform) (wps : list Point) :
  is_path_safe_loop m tf wps = Some true <->
  Forall (waypoint_qualifies m tf) wps.
Proof.
  induction wps as [|wp wps IH]; cbn [is_path_safe_loop].
  - split; [constructor|reflexivity].
  - destruct (cell_unsafe m (point_idx m (tf_apply tf wp))) as [[|]|] eqn:E;
      cbn [bind].
    + split; [discriminate|]. intros H. inversion H as [|? ? Hq _]; subst.
      apply cell_unsafe_false_iff in Hq. congruence.
    + rewrite IH. apply cell_unsafe_false_iff in E. split.
      * intros H. constructor; assumption.
      * intros H. inversion H; assumption.
    + split; [discriminate|]. intros H. inversion H as [|? ? Hq _]; subst.
      apply cell_unsafe_false_iff in Hq. congruence.
Qed.

Lemma is_path_safe_loop_false (m : Map) (tf : Transform)
    (before after : list Point) (wp : Point) :
  Forall (waypoint_qualifies m tf) before ->
  waypoint_rejected m tf wp ->
  is_path_safe_loop m tf (before ++ wp :: after) = Some false.
Proof.
  intros Hq Hr. induction Hq as [|w ws Hw _ IH]; cbn [app is_path_safe_loop].
  - rewrite (cell_unsafe_rejected _ _ _ Hr). reflexivity.
  - rewrite (cell_unsafe_qualifies _ _ _ Hw). exact IH.
Qed.

(** X6. [is_path_safe] answers true exactly when the path has a waypoint and
    every waypoint passes the safety test; it answers false at the first
    waypoint that fails it, without looking at the waypoints after it. *)
Theorem is_path_safe_all_waypoints (m : Map) (path : Path) (tf : Transform) :
  (is_path_safe m (Some path) tf = Some true <->
   poses path <> [] /\ Forall (waypoint_qualifies m tf) (poses path)) /\
  (forall before wp after,
     poses path = before ++ wp :: after ->
     Forall (waypoint_qualifies m tf) before ->
     waypoint_rejected m tf wp ->
     is_path_safe m (Some path) tf = Some false).
Proof.
  split.
  - destruct (poses path) as [|wp wps] eqn:E.
    + unfold is_path_safe. rewrite E. split; [discriminate|]. intros [H _]. congruence.
    + rewrite is_path_safe_unfold by congruence. rewrite E.
      rewrite is_path_safe_loop_true. split; [intros H; split; [discriminate|exact H]|].
      intros [_ H]. exact H.
  - intros before wp after Hsplit Hq Hr.
    rewrite is_path_safe_unfold by (rewrite Hsplit; destruct before; discriminate).
    rewrite Hsplit. apply is_path_safe_loop_false; assumption.
Qed.

(** X7. A path that [is_path_safe] accepts is accepted by [is_subgoal_safe];
    and when [is_subgoal_safe] accepts a path, [approach_unsafe_subgoal]
    returns its first waypoint in the robot frame. *)
Theorem safe_path_has_safe_subgoal (m : Map) (path : Path) (tf : Transform) :
  (is_path_safe m (Some path) tf = Some true ->
   is_subgoal_safe m (Some path) tf = Some true) /\
  (is_subgoal_safe m (Some path) tf = Some true ->
   exists wp rest,
     poses path = wp :: rest /\
     approach_unsafe_subgoal m (Some path) tf = Some (tf_apply tf wp)).
Proof.
  split.
  - unfold is_path_safe, is_subgoal_safe.
    destruct (poses path) as [|wp wps]; [discriminate|].
    intros H. apply is_path_safe_loop_true in H.
    inversion H as [|? ? Hq _]; subst.
    rewrite (cell_unsafe_qualifies _ _ _ Hq). reflexivity.
  - unfold is_subgoal_safe, approach_unsafe_subgoal.
    destruct (poses path) as [|wp wps]; [discriminate|].
    cbn [approach_unsafe_subgoal_loop].
    destruct (cell_unsafe m (point_idx m (tf_apply tf wp))) as [[|]|];
      cbn [bind negb]; try discriminate.
    intros _. exists wp, wps. split; reflexivity.
Qed.

Lemma approach_loop_provenance (m : Map) (tf : Transform) (wps : list Point)
    (pt : Point) :
  approach_unsafe_subgoal_loop m tf wps = Some pt ->
  pt = Point_zero \/
  exists wp, In wp wps /\ pt = tf_apply tf wp /\ waypoint_qualifies m tf wp.
Proof.
  induction wps as [|wp wps IH]; cbn [approach_unsafe_subgoal_loop].
  - intros H. injection H as <-. now left.
  - destruct (cell_unsafe m (point_idx m (tf_apply tf wp))) as [[|]|] eqn:E;
      cbn [bind]; [| |discriminate].
    + intros H. destruct (IH H) as [->|(w & Hin & Hpt & Hq)]; [now left|].
      right. exists w. split; [now right|]. split; assumption.
    + intros H. injection H as <-. right. exists wp.
      split; [now left|]. split; [reflexivity|].
      apply cell_unsafe_false_iff, E.
Qed.

(** X8. Whatever [approach_unsafe_subgoal] returns is either the point
    (0,0,0) or the robot-frame image of a waypoint of the path that passes
    the safety test; it never returns any other point. *)
Theorem approach_unsafe_subgoal_provenance (m : Map) (path_ptr : option Path)
    (tf : Transform) (pt : Point) :
  approach_unsafe_subgoal m path_ptr tf = Some pt ->
  pt = Point_zero \/
  exists path wp,
    path_ptr = Some path /\ In wp (poses path) /\
    pt = tf_apply tf wp /\ waypoint_qualifies m tf wp.
Proof.
  destruct path_ptr as [path|].
  - rewrite (approach_unsafe_subgoal_unfold m path tf). intros H.
    destruct (approach_loop_provenance m tf (poses path) pt H)
      as [->|(wp & Hin & Hpt & Hq)]; [now left|].
    right. exists path, wp. repeat split; assumption.
  - intros H. injection H as <-. now left.
Qed.

Lemma approach_unsafe_subgoal_provenance_witness :
  tf_apply tf_identity (mkPoint 2 0 0) = Point_zero \/
  exists path wp,
    Some corridor4_path = Some path /\ In wp (poses path) /\
    tf_apply tf_identity (mkPoint 2 0 0) = tf_apply tf_identity wp /\
    waypoint_qualifies corridor4 tf_identity wp.
Proof.
  apply (approach_unsafe_subgoal_provenance corridor4 (Some corridor4_path)
           tf_identity).
  vm_compute. reflexivity.
Defined.

Lemma is_footprint_safe_loop_true (m : Map) (cells : list (Z * Z)) :
  is_footprint_safe_loop m cells = Some true <->
  Forall (footprint_cell_free m) cells.
Proof.
  induction cells as [|cell cells IH]; cbn [is_footprint_safe_loop].
  - split; [constructor|reflexivity].
  - unfold footprint_cell_free at 1.
    destruct (data_at m (snd cell * width m + fst cell)) as [v|] eqn:Hv;
      cbn [bind].
    + destruct ((v >=? kThresObstacleDangerCost) || (v <? 0)) eqn:E.
      * split; [discriminate|]. intros H. inversion H as [|? ? Hfree _]; subst.
        destruct Hfree as (v' & Hv' & Hr). rewrite Hv in Hv'.
        injection Hv' as <-. apply orb_true_iff in E. lia.
      * apply orb_false_iff in E. rewrite IH. split.
        -- intros H. constructor; [|exact H]. exists v. split; [exact Hv|lia].
        -- intros H. inversion H; assumption.
    + split; [discriminate|]. intros H. inversion H as [|? ? Hfree _]; subst.
      destruct Hfree as (v' & Hv' & _). congruence.
Qed.

(** X9. [is_footprint_safe] answers true exactly when every cell that
    [GetFootprintCells] returns is a known cell of the grid with a cost below
    the danger threshold (in particular when it returns no cell at all); it
    answers false at the first cell that is unknown or at or above the
    threshold; and a footprint cell outside the grid before that is read out
    of bounds. *)
Theorem is_footprint_safe_all_cells
    (GetFootprintCells : option Footprint -> Map -> list (Z * Z))
    (m : Map) (footprint_ptr : option Footprint) :
  (is_footprint_safe GetFootprintCells m footprint_ptr = Some true <->
   Forall (footprint_cell_free m) (GetFootprintCells footprint_ptr m)) /\
  (forall before cell after v,
     GetFootprintCells footprint_ptr m = before ++ cell :: after ->
     Forall (footprint_cell_free m) before ->
     data_at m (snd cell * width m + fst cell) = Some v ->
     kThresObstacleDangerCost <= v \/ v < 0 ->
     is_footprint_safe GetFootprintCells m footprint_ptr = Some false) /\
  (forall before cell after,
     GetFootprintCells footprint_ptr m = before ++ cell :: after ->
     Forall (footprint_cell_free m) before ->
     data_at m (snd cell * width m + fst cell) = None ->
     is_footprint_safe GetFootprintCells m footprint_ptr = None).
Proof.
  unfold is_footprint_safe. split; [apply is_footprint_safe_loop_true|].
  split.
  - intros before cell after v -> Hfree Hv Hbad.
    induction Hfree as [|c cs (v' & Hv' & Hr) _ IH];
      cbn [app is_footprint_safe_loop].
    + rewrite Hv. cbn [bind].
      destruct ((v >=? kThresObstacleDangerCost) || (v <? 0)) eqn:E; [reflexivity|].
      apply orb_false_iff in E. lia.
    + rewrite Hv'. cbn [bind].
      destruct ((v' >=? kThresObstacleDangerCost) || (v' <? 0)) eqn:E; [|exact IH].
      apply orb_true_iff in E. lia.
  - intros before cell after -> Hfree Hv.
    induction Hfree as [|c cs (v' & Hv' & Hr) _ IH];
      cbn [app is_footprint_safe_loop].
    + rewrite Hv. reflexivity.
    + rewrite Hv'. cbn [bind].
      destruct ((v' >=? kThresObstacleDangerCost) || (v' <? 0)) eqn:E; [|exact IH].
      apply orb_true_iff in E. lia.
Qed.

Lemma Qtrunc_nonneg_iff (q : Q) : 0 <= Qtrunc q <-> (- (1) < q)%Q.
Proof.
  destruct q as [a d]. unfold Qtrunc, Qlt. cbn [Qnum Qden Qopp].
  rewrite Z.mul_1_r.
  destruct (Z_le_gt_dec 0 a) as [Ha|Ha].
  - split; [lia|]. intros _. apply Z.quot_pos; lia.
  - pose proof (Z.quot_rem' a (Z.pos d)) as Hqr.
    pose proof (Zrem_bound_neg a (Z.pos d) ltac:(lia) ltac:(lia)) as Hr.
    split; intros H; nia.
Qed.

Lemma Qtrunc_lt_iff (q : Q) (n : Z) :
  1 <= n -> (Qtrunc q < n <-> (q < inject_Z n)%Q).
Proof.
  intros Hn. destruct q as [a d]. unfold Qtrunc, Qlt, inject_Z.
  cbn [Qnum Qden]. rewrite Z.mul_1_r.
  pose proof (Z.quot_rem' a (Z.pos d)) as Hqr.
  destruct (Z_le_gt_dec 0 a) as [Ha|Ha].
  - pose proof (Z.rem_bound_pos a (Z.pos d) Ha ltac:(lia)) as Hr.
    split; intros H; nia.
  - pose proof (Zrem_bound_neg a (Z.pos d) ltac:(lia) ltac:(lia)) as Hr.
    split; intros H; nia.
Qed.

Lemma poses_at_defined_iff (path : Path) (idx : Z) :
  poses_at path idx <> None <->
  0 <= idx < Z.of_nat (List.length (poses path)).
Proof.
  unfold poses_at. destruct (idx <? 0) eqn:E.
  - split; [congruence|lia].
  - rewrite nth_error_Some. lia.
Qed.

(** X10. For a path of [n >= 1] waypoints, [is_robot_following_path] reads
    inside the path exactly when the progress value is above -0.01 and
    [(progress - 0.99) * n < 1]; outside that range [poses[target_idx]] is
    read out of bounds. So a progress value of 1 is handled for paths of
    fewer than 100 waypoints only. *)
Theorem is_robot_following_path_defined (path : Path) (progress : Q)
    (tf : Transform) :
  poses path <> [] ->
  (is_robot_following_path (Some path) progress tf <> None <->
   (- (1 # 100) < progress)%Q /\
   ((progress - (99 # 100)) * inject_Z (Z.of_nat (List.length (poses path))) < 1)%Q) /\
  ((progress == 1)%Q ->
   (is_robot_following_path (Some path) progress tf <> None <->
    (List.length (poses path) < 100)%nat)).
Proof.
  intros Hne.
  set (n := List.length (poses path)).
  assert (Hn : (1 <= n)%nat).
  { subst n. destruct (poses path); [congruence|simpl; lia]. }
  assert (Hn' : (0 < inject_Z (Z.of_nat n))%Q).
  { replace 0%Q with (inject_Z 0) by reflexivity. rewrite <- Zlt_Qlt. lia. }
  assert (Hdef : is_robot_following_path (Some path) progress tf <> None <->
                 0 <= tracking_idx n progress < Z.of_nat n).
  { unfold is_robot_following_path. fold n.
    destruct (n <? 1)%nat eqn:E; [apply Nat.ltb_lt in E; lia|].
    pose proof (poses_at_defined_iff path (tracking_idx n progress)) as Hp.
    fold n in Hp. rewrite <- Hp.
    destruct (poses_at path (tracking_idx n progress)) as [p|]; cbn [bind].
    - destruct (Qgeb _ _); split; congruence.
    - split; congruence. }
  assert (Hrange : 0 <= tracking_idx n progress < Z.of_nat n <->
                   (- (1 # 100) < progress)%Q /\
                   ((progress - (99 # 100)) * inject_Z (Z.of_nat n) < 1)%Q).
  { unfold tracking_idx.
    rewrite Qtrunc_nonneg_iff, (Qtrunc_lt_iff _ (Z.of_nat n)) by lia.
    split; intros [H1 H2]; split; nra. }
  split; [rewrite Hdef; exact Hrange|].
  intros H1. rewrite Hdef, Hrange.
  assert (H100 : (n < 100)%nat <-> (inject_Z (Z.of_nat n) < 100)%Q).
  { replace 100%Q with (inject_Z 100) by reflexivity. rewrite <- Zlt_Qlt. lia. }
  rewrite H100. rewrite H1. split.
  - intros [_ H]. nra.
  - intros H. split; [reflexivity|nra].
Qed.

Lemma is_robot_following_path_defined_witness :
  is_robot_following_path (Some (straight_path 100)) 1 tf_identity = None /\
  is_robot_following_path (Some (straight_path 99)) 1 tf_identity <> None.
Proof.
  split.
  - destruct (is_robot_following_path (Some (straight_path 100)) 1 tf_identity)
      as [b|] eqn:E; [|reflexivity].
    destruct (is_robot_following_path_defined (straight_path 100) 1 tf_identity)
      as [_ H]; [discriminate|].
    specialize (H (Qeq_refl 1)).
    assert (Hd : is_robot_following_path (Some (straight_path 100)) 1 tf_identity
                 <> None) by (rewrite E; discriminate).
    apply H in Hd. vm_compute in Hd. lia.
  - apply (proj2 (is_robot_following_path_defined (straight_path 99) 1 tf_identity
                    ltac:(discriminate))); [reflexivity|].
    vm_compute. lia.
Defined.

(** * More on subgoal generation *)

Section Subgoal_more.

Variable sin : Q -> Q.
Variable cos : Q -> Q.
Variable hypot : Q -> Q -> Q.

Lemma Qtrunc_ge_iff (q : Q) (n : Z) :
  1 <= n -> ((Qtrunc q >=? n) = true <-> (inject_Z n <= q)%Q).
Proof.
  intros Hn. pose proof (Qtrunc_lt_iff q n Hn) as H.
  destruct (Qtrunc q >=? n) eqn:E.
  - split; [|reflexivity]. intros _. apply Qnot_lt_le. intros Hlt.
    apply H in Hlt. lia.
  - split; [discriminate|]. intros Hle. apply Qle_not_lt in Hle.
    exfalso. apply Hle, H. lia.
Qed.

Lemma Qdiv_ge_iff (a r : Q) (n : Z) :
  (0 < r)%Q -> ((inject_Z n <= a / r)%Q <-> (inject_Z n * r <= a)%Q).
Proof.
  intros Hr. split; intros H.
  - apply (Qmult_le_r _ _ (/ r)); [apply Qinv_lt_0_compat, Hr|].
    rewrite <- Qmult_assoc, Qmult_inv_r, Qmult_1_r by (intros E; rewrite E in Hr; discriminate Hr).
    exact H.
  - apply (Qmult_le_r _ _ (/ r)) in H; [|apply Qinv_lt_0_compat, Hr].
    rewrite <- Qmult_assoc, Qmult_inv_r, Qmult_1_r in H
      by (intros E; rewrite E in Hr; discriminate Hr).
    exact H.
Qed.

(** X11. On a grid with a positive resolution and at least one row and one
    column, [generate_subgoal] enters the radial search exactly when the goal
    in the robot frame lies at or beyond the upper x edge
    [origin_x + width * resolution] or the upper y edge of the grid. The
    lower edges are not tested: a goal below them, outside the grid, is
    returned directly like a goal inside it. *)
Theorem generate_subgoal_tests_upper_edges (cfg : Params) (m : Map)
    (finalgoal : Point) (tf_base2odom : Transform) :
  (0 < resolution m)%Q -> 1 <= width m -> 1 <= height m ->
  let g := tf_apply (tf_inverse tf_base2odom) finalgoal in
  (goal_out_of_range m g = true <->
   (origin_x m + inject_Z (width m) * resolution m <= px g)%Q \/
   (origin_y m + inject_Z (height m) * resolution m <= py g)%Q) /\
  ((px g < origin_x m + inject_Z (width m) * resolution m)%Q ->
   (py g < origin_y m + inject_Z (height m) * resolution m)%Q ->
   generate_subgoal sin cos hypot cfg m finalgoal tf_base2odom
   = Some (g, [Mrk_subgoal finalgoal])).
Proof.
  intros Hres Hw Hh g.
  assert (Hiff : goal_out_of_range m g = true <->
            (origin_x m + inject_Z (width m) * resolution m <= px g)%Q \/
            (origin_y m + inject_Z (height m) * resolution m <= py g)%Q).
  { unfold goal_out_of_range. rewrite orb_true_iff.
    rewrite (Qtrunc_ge_iff _ (width m) Hw), (Qtrunc_ge_iff _ (height m) Hh).
    rewrite !Qdiv_ge_iff by exact Hres.
    split; intros [H|H]; [left|right|left|right]; lra. }
  split; [exact Hiff|].
  intros Hx Hy. unfold generate_subgoal. fold g.
  destruct (goal_out_of_range m g) eqn:E; [|reflexivity].
  destruct (proj1 Hiff eq_refl) as [H|H]; lra.
Qed.

End Subgoal_more.

Lemma generate_subgoal_tests_upper_edges_witness :
  generate_subgoal sin_table cos_table hypot_approx default_params
                   scenario_a_map goal_behind tf_identity
  = Some (tf_apply (tf_inverse tf_identity) goal_behind,
          [Mrk_subgoal goal_behind]).
Proof.
  apply (generate_subgoal_tests_upper_edges sin_table cos_table hypot_approx
           default_params scenario_a_map goal_behind tf_identity);
    [reflexivity|simpl; lia|simpl; lia|reflexivity|reflexivity].
Defined.

(** The cell of [goal_behind] in [scenario_a_map] has column -70: the planner
    is asked for a target index outside the grid. *)
Example goal_behind_target_cell :
  Qround ((px goal_behind - origin_x scenario_a_map) / resolution scenario_a_map)
  = -70 /\
  point_idx scenario_a_map goal_behind = 30 * 60 - 70.
Proof. split; vm_compute; reflexivity. Qed.

Section Search_more.

Variable sin : Q -> Q.
Variable cos : Q -> Q.
Variable hypot : Q -> Q -> Q.
Variable FindPathByHashmap : Map -> Path -> Z -> Z -> Q -> bool * Path.

Lemma Qround_comp (x y : Q) : (x == y)%Q -> Qround x = Qround y.
Proof.
  intros H. unfold Qround.
  assert (Hb : Qle_bool 0 x = Qle_bool 0 y).
  { destruct (Qle_bool 0 x) eqn:Ex, (Qle_bool 0 y) eqn:Ey; try reflexivity.
    - apply Qle_bool_iff in Ex. rewrite H in Ex. apply Qle_bool_iff in Ex.
      congruence.
    - apply Qle_bool_iff in Ey. rewrite <- H in Ey. apply Qle_bool_iff in Ey.
      congruence. }
  rewrite Hb. destruct (Qle_bool 0 y).
  - apply Qfloor_comp. rewrite H. reflexivity.
  - apply Qceiling_comp. rewrite H. reflexivity.
Qed.

Lemma ray_loop_kept (cfg : Params) (m : Map) (g : Point) (D : Q) (i : Z)
    (js : list Z) :
  forall (s : Q) (k : Z) (r : Q * Z),
    ray_loop sin cos hypot cfg m g D i js s k = Some r ->
    (s <= fst r)%Q /\
    (snd r = k \/ (In (snd r) js /\ sample_safe sin cos cfg m i (snd r))).
Proof.
  induction js as [|j js IH]; intros s k r H.
  - injection H as <-. split; [apply Qle_refl|now left].
  - rewrite ray_loop_cons in H.
    destruct (get_local_max_cost m (sample_idx sin cos cfg m i j)) as [c|] eqn:Hc;
      [|discriminate H].
    cbn [bind] in H.
    destruct (c >? kThresObstacleDangerCost) eqn:Hgt.
    { injection H as <-. split; [apply Qle_refl|now left]. }
    destruct (data_at m (sample_idx sin cos cfg m i j)) as [v|] eqn:Hv;
      [|discriminate H].
    cbn [bind] in H.
    destruct (v =? -1) eqn:Hunk.
    { injection H as <-. split; [apply Qle_refl|now left]. }
    assert (Hsafe : sample_safe sin cos cfg m i j).
    { exists c, v. repeat split; [exact Hc|lia|exact Hv|lia]. }
    assert (Hskip : forall r',
              ray_loop sin cos hypot cfg m g D i js s k = Some r' ->
              (s <= fst r')%Q /\
              (snd r' = k \/
               (In (snd r') (j :: js) /\ sample_safe sin cos cfg m i (snd r')))).
    { intros r' H'. destruct (IH _ _ _ H') as [Hle Hk]. split; [exact Hle|].
      destruct Hk as [Hk|[Hin Hs]]; [now left|].
      right. split; [now right|exact Hs]. }
    destruct (candidate_score sin cos hypot cfg g D i j c) as [score| |];
      [|apply Hskip, H|apply Hskip, H].
    change (Qgtb score s) with (Qltb s score) in H.
    destruct (Qltb s score) eqn:E; [|apply Hskip, H].
    apply Qltb_true in E. destruct (IH _ _ _ H) as [Hle Hk]. split.
    + eapply Qle_trans; [apply Qlt_le_weak, E|exact Hle].
    + right. destruct Hk as [->|[Hin Hs]]; [split; [now left|exact Hsafe]|].
      split; [now right|exact Hs].
Qed.

Lemma search_fold_undefined (cfg : Params) (m : Map) (g : Point) (D : Q)
    (angles : list Z) :
  fold_left (search_body sin cos hypot cfg m g D) angles None = None.
Proof. induction angles as [|i angles IH]; [reflexivity|exact IH]. Qed.

Lemma search_fold_rays_defined (cfg : Params) (m : Map) (g : Point) (D : Q)
    (angles : list Z) :
  forall (acc res : Search),
    fold_left (search_body sin cos hypot cfg m g D) angles (Some acc) = Some res ->
    forall i, In i angles -> ray sin cos hypot cfg m g D i <> None.
Proof.
  induction angles as [|a angles IH]; intros acc res H i Hi; [destruct Hi|].
  cbn [fold_left] in H. unfold search_body at 2 in H. cbn [bind] in H.
  destruct (ray sin cos hypot cfg m g D a) as [r|] eqn:Hr.
  - cbn [bind] in H. destruct Hi as [<-|Hi]; [congruence|].
    eapply IH; eassumption.
  - cbn [bind] in H. rewrite search_fold_undefined in H. discriminate H.
Qed.

(** X12. Whenever the radial search returns a point, that point is the end
    point of one of the fifteen rays at a recorded step that is either 0 (the
    path-start offset point) or a step between 3 and 13 whose sampled cell
    was safe: smoothed cost at most 80 and the cell itself not -1. *)
Theorem generate_subgoal_returns_safe_candidate (cfg : Params) (m : Map)
    (finalgoal : Point) (tf_base2odom : Transform) (pt : Point)
    (markers : list Marker) :
  goal_out_of_range m (tf_apply (tf_inverse tf_base2odom) finalgoal) = true ->
  generate_subgoal sin cos hypot cfg m finalgoal tf_base2odom
  = Some (pt, markers) ->
  exists i k,
    2 <= i <= 16 /\
    pt = ray_point sin cos cfg i k /\
    (k = 0 \/ (3 <= k <= 13 /\ sample_safe sin cos cfg m i k)).
Proof.
  intros Hout Hgen.
  set (g := tf_apply (tf_inverse tf_base2odom) finalgoal) in *.
  set (D := hypot (px g) (py g)).
  set (outcome := fun i =>
         match ray sin cos hypot cfg m g D i with
         | Some r => r
         | None => (0%Q, 0)
         end).
  assert (Hray : forall i, 2 <= i <= 16 ->
            ray sin cos hypot cfg m g D i = Some (outcome i)).
  { intros i Hi. unfold outcome.
    destruct (ray sin cos hypot cfg m g D i) as [r|] eqn:Hr; [reflexivity|].
    exfalso.
    assert (Hs : radial_search sin cos hypot cfg m g D <> None).
    { intros Hs. unfold generate_subgoal in Hgen. fold g in Hgen.
      fold D in Hgen. rewrite Hout, Hs in Hgen. discriminate Hgen. }
    destruct (radial_search sin cos hypot cfg m g D) as [srch|] eqn:Hs';
      [clear Hs|congruence].
    unfold radial_search in Hs'.
    apply (search_fold_rays_defined cfg m g D _ _ _ Hs' i); [|exact Hr].
    unfold Zrange_down. apply in_map_iff.
    exists (Z.to_nat (16 - i)). split; [lia|]. apply in_seq.
    change (Z.to_nat (16 - 2 + 1)) with 15%nat. lia. }
  set (scores := candidate_score_list
                   (search_of sin cos cfg outcome (Zrange_down 16 2))).
  assert (Hlen : List.length scores = 15%nat) by reflexivity.
  destruct (argmax_spec scores) as (Hk & _ & _).
  { intros Hnil. rewrite Hnil in Hlen. discriminate Hlen. }
  rewrite Hlen in Hk.
  set (i := 16 - Z.of_nat (argmax scores)).
  assert (Hi : 2 <= i <= 16) by (subst i; lia).
  assert (Heq : exists mk,
            generate_subgoal sin cos hypot cfg m finalgoal tf_base2odom
            = Some (ray_point sin cos cfg i (snd (outcome i)), mk)).
  { eexists. unfold generate_subgoal. fold g. fold D. rewrite Hout.
    rewrite (radial_search_outcome sin cos hypot cfg m g D outcome Hray).
    cbn [bind]. fold scores.
    rewrite (candidate_point_at sin cos cfg outcome (Zrange_down 16 2)
               (argmax scores)) by exact Hk.
    cbn [bind]. rewrite Zrange_down_16_2_nth by exact Hk. reflexivity. }
  destruct Heq as (mk & Heq). rewrite Heq in Hgen. injection Hgen as <- _.
  exists i, (snd (outcome i)). split; [exact Hi|]. split; [reflexivity|].
  pose proof (Hray i Hi) as Hr. unfold ray in Hr.
  destruct (ray_loop_kept cfg m g D i _ _ _ _ Hr) as [_ [H0|[Hin Hsafe]]];
    [now left|].
  right. split; [|exact Hsafe].
  apply In_Zrange in Hin. change max_distance_idx with 13 in Hin. exact Hin.
Qed.

(** X13. When the radial search returns the point of a ray at the recorded
    step 0, the target cell that [timer_cb] and [finalgoal_cb] compute from
    it is the origin cell of the planning request: the solver is asked for a
    path from the origin cell to itself. *)
Theorem search_step_zero_targets_origin_cell (cfg : Params) (m : Map) (i : Z)
    (s : Node) :
  point_idx m (ray_point sin cos cfg i 0) = origin_idx_of cfg m /\
  exists ok s' t,
    plan_path FindPathByHashmap cfg m (ray_point sin cos cfg i 0) s
    = Some (ok, s', t) /\
    In (Call_solver (origin_idx_of cfg m) (origin_idx_of cfg m)) t.
Proof.
  assert (Hcell : point_idx m (ray_point sin cos cfg i 0) = origin_idx_of cfg m).
  { unfold point_idx, origin_idx_of, ray_point. cbn [px py].
    change (inject_Z 0) with 0%Q.
    f_equal; [f_equal|]; apply Qround_comp; unfold Qdiv;
      apply Qmult_comp; try reflexivity; ring. }
  split; [exact Hcell|].
  unfold plan_path. rewrite Hcell.
  cbv [seq_cb assign emit ret]. eexists. eexists. eexists.
  split; [reflexivity|]. cbn [app]. right. right. left. reflexivity.
Qed.

(** With the divisor 0 no sample replaces the running values. *)
Lemma ray_loop_zero_divisor (cfg : Params) (m : Map) (g : Point) (D : Q)
    (i : Z) (js : list Z) :
  (D == 0)%Q ->
  forall (s : Q) (k : Z) (r : Q * Z),
    ray_loop sin cos hypot cfg m g D i js s k = Some r -> r = (s, k).
Proof.
  intros HD. induction js as [|j js IH]; intros s k r H.
  - injection H as <-. reflexivity.
  - rewrite ray_loop_cons in H.
    destruct (get_local_max_cost m (sample_idx sin cos cfg m i j)) as [c|];
      [|discriminate H].
    cbn [bind] in H.
    destruct (c >? kThresObstacleDangerCost);
      [injection H as <-; reflexivity|].
    destruct (data_at m (sample_idx sin cos cfg m i j)) as [v|];
      [|discriminate H].
    cbn [bind] in H.
    destruct (v =? -1); [injection H as <-; reflexivity|].
    destruct (candidate_score_zero_divisor sin cos hypot cfg g D i j c HD)
      as [Hs|Hs]; rewrite Hs in H; apply IH, H.
Qed.

(** X24. When the goal is at the robot, [dis_base2goal] is 0 and the score
    divides by it unguarded: every score is -infinity or NaN and exceeds
    nothing. If the search is entered then and no ray reads outside the
    grid, every ray records score 0 and step 0, whatever safe cells it
    sampled, and [generate_subgoal] returns the path-start offset point, the
    end point of ray 16 at step 0. *)
Theorem generate_subgoal_goal_at_robot (cfg : Params) (m : Map)
    (finalgoal : Point) (tf_base2odom : Transform) :
  let g := tf_apply (tf_inverse tf_base2odom) finalgoal in
  let D := hypot (px g) (py g) in
  goal_out_of_range m g = true ->
  (D == 0)%Q ->
  (forall i, 2 <= i <= 16 -> ray sin cos hypot cfg m g D i <> None) ->
  (forall i, 2 <= i <= 16 -> ray sin cos hypot cfg m g D i = Some (0%Q, 0)) /\
  exists markers,
    generate_subgoal sin cos hypot cfg m finalgoal tf_base2odom
    = Some (ray_point sin cos cfg 16 0, markers).
Proof.
  intros g D Hout HD Hdef.
  assert (Hrays : forall i, 2 <= i <= 16 ->
            ray sin cos hypot cfg m g D i = Some (0%Q, 0)).
  { intros i Hi. specialize (Hdef i Hi).
    destruct (ray sin cos hypot cfg m g D i) as [r|] eqn:Hr; [|congruence].
    unfold ray in Hr.
    rewrite (ray_loop_zero_divisor cfg m g D i _ HD _ _ _ Hr). reflexivity. }
  split; [exact Hrays|].
  unfold generate_subgoal. fold g. fold D. rewrite Hout.
  rewrite (radial_search_outcome sin cos hypot cfg m g D (fun _ => (0%Q, 0)) Hrays).
  cbn [bind].
  change (argmax (candidate_score_list
                    (search_of sin cos cfg (fun _ => (0%Q, 0)) (Zrange_down 16 2))))
    with 0%nat.
  rewrite (candidate_point_at sin cos cfg (fun _ => (0%Q, 0)) (Zrange_down 16 2) 0)
    by (simpl; lia).
  cbn [bind]. eexists. reflexivity.
Qed.

End Search_more.

Lemma generate_subgoal_returns_safe_candidate_witness :
  exists i k,
    2 <= i <= 16 /\
    ray_point sin_table cos_table default_params 9 3
    = ray_point sin_table cos_table default_params i k /\
    (k = 0 \/ (3 <= k <= 13 /\
               sample_safe sin_table cos_table default_params rear_map i k)).
Proof.
  destruct (generate_subgoal sin_table cos_table hypot_approx default_params
              rear_map goal_far tf_identity) as [[pt markers]|] eqn:E.
  - apply (generate_subgoal_returns_safe_candidate
             sin_table cos_table hypot_approx default_params rear_map goal_far
             tf_identity (ray_point sin_table cos_table default_params 9 3)
             markers).
    + vm_compute. reflexivity.
    + rewrite E. f_equal. f_equal.
      assert (H : option_map fst (Some (pt, markers))
                  = Some (ray_point sin_table cos_table default_params 9 3)).
      { rewrite <- E. vm_compute. reflexivity. }
      injection H as H. exact H.
  - exfalso. vm_compute in E. discriminate E.
Defined.

Lemma generate_subgoal_goal_at_robot_witness :
  exists markers,
    generate_subgoal sin_table cos_table hypot_approx default_params
                     rear_map goal_at_robot tf_identity
    = Some (ray_point sin_table cos_table default_params 16 0, markers).
Proof.
  apply (generate_subgoal_goal_at_robot sin_table cos_table hypot_approx
           default_params rear_map goal_at_robot tf_identity).
  - vm_compute. reflexivity.
  - vm_compute. reflexivity.
  - intros i Hi.
    assert (Hcases : i = 2 \/ i = 3 \/ i = 4 \/ i = 5 \/ i = 6 \/ i = 7 \/ i = 8
                     \/ i = 9 \/ i = 10 \/ i = 11 \/ i = 12 \/ i = 13 \/ i = 14
                     \/ i = 15 \/ i = 16) by lia.
    repeat (destruct Hcases as [->|Hcases]; [vm_compute; discriminate|]).
    subst i. vm_compute. discriminate.
Defined.

(** * More on the decision cycle *)

Section Cycle_more.

Variable sin : Q -> Q.
Variable cos : Q -> Q.
Variable hypot : Q -> Q -> Q.
Variable GetFootprintCells : option Footprint -> Map -> list (Z * Z).
Variable FindPathByHashmap : Map -> Path -> Z -> Z -> Q -> bool * Path.

(** X14. In a timer cycle that starts idle with a map and a goal, a safe
    footprint and the robot within two cells of the goal, the callback
    clears the goal, publishes the empty path, clears the stored path,
    publishes the status "finalgoal arrival" and releases the flag, whatever
    the path predicates answered; the solver is not called. *)
Theorem timer_cb_arrival (cfg : Params) (env : Env) (s : Node) (m : Map)
    (finalgoal : Point) (subgoal_safe path_safe following : bool) :
  flag_planning_busy_ s = false ->
  localmap_ptr_ s = Some m ->
  finalgoal_ptr_ s = Some finalgoal ->
  is_footprint_safe GetFootprintCells m (footprint_ptr_ s) = Some true ->
  is_subgoal_safe m (walkable_path_ptr_ s) (tf_inverse (tf_base2odom_ env))
  = Some subgoal_safe ->
  is_path_safe m (walkable_path_ptr_ s) (tf_inverse (tf_base2odom_ env))
  = Some path_safe ->
  is_robot_following_path (walkable_path_ptr_ s)
    (tracking_progress_percentage_ s) (tf_inverse (tf_base2odom_ env))
  = Some following ->
  (hypot (px (origin (tf_base2odom_ env)) - px finalgoal)
         (py (origin (tf_base2odom_ env)) - py finalgoal)
   <= resolution m * 2)%Q ->
  let s1 := set_finalgoal None (set_busy true s) in
  let s2 := set_walkable_path None s1 in
  timer_cb sin cos hypot GetFootprintCells FindPathByHashmap cfg env s
  = Some (tt, set_busy false s2,
          [Assign (set_busy true s);
           Assign s1;
           Publish_walkable_path (empty_path cfg);
           Assign s2;
           Publish_robot_status "finalgoal arrival";
           Assign (set_busy false s2)]) /\
  finalgoal_ptr_ (set_busy false s2) = None /\
  walkable_path_ptr_ (set_busy false s2) = None /\
  flag_planning_busy_ (set_busy false s2) = false.
Proof.
  intros Hidle Hmap Hgoal Hfoot Hsub Hpath Hfollow Hdis s1 s2.
  split; [|repeat split].
  unfold timer_cb. rewrite seq_get, Hidle, seq_assign, Hmap, Hgoal.
  rewrite (seq_lift _ _ _ _ Hfoot).
  rewrite (seq_lift _ _ _ _ Hsub).
  rewrite (seq_lift _ _ _ _ Hpath).
  rewrite (seq_lift _ _ _ _ Hfollow).
  cbn [negb]. unfold Qleb. apply Qle_bool_iff in Hdis. rewrite Hdis.
  reflexivity.
Qed.

(** X15. In a timer cycle that starts idle with a map and a goal, a safe
    footprint, the robot farther than two cells from the goal, and a stored
    path that is safe, followed and not older than 5 s while the robot is
    within 1.5 m of the goal or the progress is below 0.7, the callback
    publishes the stored path as it is and nothing else; the node is left
    unchanged, so the next such cycle publishes the same path again. *)
Theorem timer_cb_steady_state (cfg : Params) (env : Env) (s : Node) (m : Map)
    (finalgoal : Point) (path : Path) (subgoal_safe : bool) :
  flag_planning_busy_ s = false ->
  localmap_ptr_ s = Some m ->
  finalgoal_ptr_ s = Some finalgoal ->
  walkable_path_ptr_ s = Some path ->
  is_footprint_safe GetFootprintCells m (footprint_ptr_ s) = Some true ->
  is_subgoal_safe m (Some path) (tf_inverse (tf_base2odom_ env))
  = Some subgoal_safe ->
  is_path_safe m (Some path) (tf_inverse (tf_base2odom_ env)) = Some true ->
  is_robot_following_path (Some path)
    (tracking_progress_percentage_ s) (tf_inverse (tf_base2odom_ env))
  = Some true ->
  is_path_deprecated (now_check env) (Some path) = false ->
  (resolution m * 2
   < hypot (px (origin (tf_base2odom_ env)) - px finalgoal)
           (py (origin (tf_base2odom_ env)) - py finalgoal))%Q ->
  (hypot (px (origin (tf_base2odom_ env)) - px finalgoal)
         (py (origin (tf_base2odom_ env)) - py finalgoal) <= 15 # 10)%Q \/
  (tracking_progress_percentage_ s < kThresPercentageOfArrival)%Q ->
  timer_cb sin cos hypot GetFootprintCells FindPathByHashmap cfg env s
  = Some (tt, s,
          [Assign (set_busy true s); Publish_walkable_path path; Assign s]).
Proof.
  intros Hidle Hmap Hgoal Hp Hfoot Hsub Hpath Hfollow Hdep Hfar Hnear.
  unfold timer_cb. rewrite seq_get, Hidle, seq_assign, Hmap, Hgoal.
  cbn [walkable_path_ptr_ set_busy]. rewrite Hp.
  rewrite (seq_lift _ _ _ _ Hfoot).
  rewrite (seq_lift _ _ _ _ Hsub).
  rewrite (seq_lift _ _ _ _ Hpath).
  rewrite (seq_lift _ _ _ _ Hfollow).
  cbn [negb]. rewrite Hdep.
  assert (Harr : Qleb (hypot (px (origin (tf_base2odom_ env)) - px finalgoal)
                             (py (origin (tf_base2odom_ env)) - py finalgoal))
                      (resolution m * 2) = false).
  { unfold Qleb. destruct (Qle_bool _ _) eqn:E; [|reflexivity].
    apply Qle_bool_iff in E. apply Qle_not_lt in E. contradiction. }
  rewrite Harr.
  assert (Hcond : (Qleb (hypot (px (origin (tf_base2odom_ env)) - px finalgoal)
                               (py (origin (tf_base2odom_ env)) - py finalgoal))
                        (15 # 10)
                   || Qltb (tracking_progress_percentage_ s)
                           kThresPercentageOfArrival) = true).
  { apply orb_true_iff. destruct Hnear as [H|H].
    - left. apply Qle_bool_iff, H.
    - right. apply Qltb_true, H. }
  cbn [tracking_progress_percentage_]. rewrite Hcond. cbn [andb negb].
  unfold seq_cb at 1. unfold publish_walkable_path_ptr. rewrite seq_get.
  cbn [walkable_path_ptr_ set_busy]. rewrite Hp. unfold emit, assign.
  rewrite (set_busy_false_idle s Hidle). reflexivity.
Qed.

Lemma timer_cb_without_map_or_goal (cfg : Params) (env : Env) (s : Node) :
  flag_planning_busy_ s = false ->
  localmap_ptr_ s = None \/ finalgoal_ptr_ s = None ->
  timer_cb sin cos hypot GetFootprintCells FindPathByHashmap cfg env s
  = Some (tt, s, [Assign (set_busy true s); Assign s]).
Proof.
  intros Hidle Hmissing.
  unfold timer_cb. rewrite seq_get, Hidle, seq_assign.
  assert (H : match localmap_ptr_ s, finalgoal_ptr_ s with
              | Some _, Some _ => False
              | _, _ => True
              end).
  { destruct Hmissing as [-> | ->]; [exact I|]. destruct (localmap_ptr_ s); exact I. }
  destruct (localmap_ptr_ s) as [m|]; [destruct (finalgoal_ptr_ s) as [g|]|];
    [destruct H| |]; unfold assign; rewrite (set_busy_false_idle s Hidle);
    reflexivity.
Qed.

(** X16. A timer cycle that starts idle without a map, or without a goal,
    only sets and clears the busy flag: nothing is published, no predicate is
    evaluated, the solver is not called and the node is left unchanged. *)
Theorem timer_cb_not_ready (cfg : Params) (env : Env) (s : Node) :
  flag_planning_busy_ s = false ->
  localmap_ptr_ s = None \/ finalgoal_ptr_ s = None ->
  timer_cb sin cos hypot GetFootprintCells FindPathByHashmap cfg env s
  = Some (tt, s, [Assign (set_busy true s); Assign s]) /\
  tally [Assign (set_busy true s); Assign s] = (0%nat, 0%nat).
Proof.
  intros Hidle Hmissing.
  split; [apply timer_cb_without_map_or_goal; assumption|reflexivity].
Qed.

(** X17. A goal that arrives while there is no map, or while the footprint
    is unsafe, is stored all the same: [finalgoal_cb] publishes the status
    "Empty localmap or unsafe footprint, skip finalgoal assignment." and no
    path, does not call the solver, and leaves [finalgoal_ptr_] on the new
    goal, so the next timer cycle with a map plans towards it. *)
Theorem finalgoal_cb_skipped_goal_is_stored (cfg : Params) (env : Env)
    (goal : Point) (s : Node) :
  localmap_ptr_ s = None \/
  (exists m, localmap_ptr_ s = Some m /\
             is_footprint_safe GetFootprintCells m (footprint_ptr_ s) = Some false) ->
  let s1 := set_finalgoal (Some goal) (set_busy true s) in
  finalgoal_cb sin cos hypot GetFootprintCells FindPathByHashmap cfg env goal s
  = Some (tt, set_busy false s1,
          [Assign (set_busy true s);
           Assign s1;
           Publish_robot_status
             "Empty localmap or unsafe footprint, skip finalgoal assignment.";
           Assign (set_busy false s1)]) /\
  finalgoal_ptr_ (set_busy false s1) = Some goal /\
  walkable_path_ptr_ (set_busy false s1) = walkable_path_ptr_ s.
Proof.
  intros Hskip s1. split; [|split; reflexivity].
  unfold finalgoal_cb. rewrite seq_assign, seq_assign, seq_get.
  cbn [localmap_ptr_ footprint_ptr_ set_finalgoal set_busy].
  destruct Hskip as [Hmap|(m & Hmap & Hfoot)]; rewrite Hmap.
  - rewrite seq_ret. reflexivity.
  - rewrite (seq_lift _ _ _ _ Hfoot). reflexivity.
Qed.

Lemma dispatch_infinite_travel (cfg : Params) (msg : Msg) (s s' : Node)
    (t : list Event) :
  flag_infinity_traval_ cfg = true ->
  flag_planning_busy_ s = false -> finalgoal_ptr_ s = None ->
  dispatch sin cos hypot GetFootprintCells FindPathByHashmap cfg msg s
  = Some (tt, s', t) ->
  flag_planning_busy_ s' = false /\ finalgoal_ptr_ s' = None /\
  tally t = (0%nat, 0%nat).
Proof.
  intros Hinf Hidle Hgoal H. destruct msg as [m|f|p|env g|env]; cbn [dispatch] in H.
  - unfold localmap_cb in H. rewrite seq_get, Hidle in H.
    injection H as <- <-. repeat split; assumption.
  - injection H as <- <-. repeat split; assumption.
  - injection H as <- <-. repeat split; assumption.
  - rewrite Hinf in H. injection H as <- <-. repeat split; assumption.
  - rewrite timer_cb_without_map_or_goal in H by (try right; assumption).
    injection H as <- <-. repeat split; assumption.
Qed.

(** X21. With [flag_infinity_traval] set the node never plans: goal messages
    are not subscribed to, so in every run from the constructor state
    [finalgoal_ptr_] stays null, every timer cycle returns at "Empty
    finalgoal ptr", the solver is never called and no path is ever
    published. *)
Theorem infinite_travel_never_plans (cfg : Params) (msgs : list Msg)
    (s' : Node) (t : list Event) :
  flag_infinity_traval_ cfg = true ->
  spin sin cos hypot GetFootprintCells FindPathByHashmap cfg msgs Node_init
  = Some (tt, s', t) ->
  finalgoal_ptr_ s' = None /\
  walkable_path_ptr_ s' = None /\
  tally t = (0%nat, 0%nat).
Proof.
  intros Hinf.
  assert (Hgen : forall msgs s s' t,
            flag_planning_busy_ s = false -> finalgoal_ptr_ s = None ->
            walkable_path_ptr_ s = None ->
            spin sin cos hypot GetFootprintCells FindPathByHashmap cfg msgs s
            = Some (tt, s', t) ->
            finalgoal_ptr_ s' = None /\ walkable_path_ptr_ s' = None /\
            tally t = (0%nat, 0%nat)).
  { clear msgs s' t. induction msgs as [|msg msgs IH]; intros s s' t Hidle Hgoal Hpath H.
    - injection H as <- <-. repeat split; assumption.
    - cbn [spin] in H. unfold seq_cb in H.
      destruct (dispatch _ _ _ _ _ cfg msg s) as [[[[] s1] t1]|] eqn:Ed;
        [|discriminate H].
      destruct (spin _ _ _ _ _ cfg msgs s1) as [[[[] s2] t2]|] eqn:Es;
        [|discriminate H].
      injection H as <- <-.
      destruct (dispatch_infinite_travel cfg msg s s1 t1 Hinf Hidle Hgoal Ed)
        as (Hidle1 & Hgoal1 & Ht1).
      assert (Hpath1 : walkable_path_ptr_ s1 = None).
      { destruct msg as [m|f|p|env g|env]; cbn [dispatch] in Ed.
        - unfold localmap_cb in Ed. rewrite seq_get, Hidle in Ed.
          injection Ed as <- _. exact Hpath.
        - injection Ed as <- _. exact Hpath.
        - injection Ed as <- _. exact Hpath.
        - rewrite Hinf in Ed. injection Ed as <- _. exact Hpath.
        - rewrite timer_cb_without_map_or_goal in Ed by (try right; assumption).
          injection Ed as <- _. exact Hpath. }
      destruct (IH s1 s2 t2 Hidle1 Hgoal1 Hpath1 Es) as (Hg & Hp & Ht2).
      split; [exact Hg|]. split; [exact Hp|].
      unfold tally, count_events in *. rewrite !filter_app, !length_app.
      injection Ht1 as Ha Hb. injection Ht2 as Hc Hd.
      rewrite Ha, Hb, Hc, Hd. reflexivity. }
  apply Hgen; reflexivity.
Qed.

End Cycle_more.

Lemma timer_cb_arrival_witness :
  exists s' t,
    timer_cb sin_table cos_table hypot_approx footprint_nowhere solver_fails
             default_params env0 node_near_goal = Some (tt, s', t) /\
    finalgoal_ptr_ s' = None /\ walkable_path_ptr_ s' = None.
Proof.
  destruct (timer_cb_arrival sin_table cos_table hypot_approx footprint_nowhere
              solver_fails default_params env0 node_near_goal rear_map goal_near
              false false false)
    as (Hrun & Hgoal & Hpath & _);
    [reflexivity|reflexivity|reflexivity|reflexivity|reflexivity|reflexivity
    |reflexivity|vm_compute; discriminate|].
  eexists. eexists. split; [exact Hrun|]. split; [exact Hgoal|exact Hpath].
Defined.

Lemma timer_cb_steady_state_witness :
  timer_cb sin_table cos_table hypot_approx footprint_nowhere solver_fails
           default_params env0 node_following
  = Some (tt, node_following,
          [Assign (set_busy true node_following);
           Publish_walkable_path free_path;
           Assign node_following]).
Proof.
  apply (timer_cb_steady_state sin_table cos_table hypot_approx footprint_nowhere
           solver_fails default_params env0 node_following corridor4 goal_far
           free_path true);
    [reflexivity|reflexivity|reflexivity|reflexivity|reflexivity|reflexivity
    |reflexivity|reflexivity|reflexivity|reflexivity|right; reflexivity].
Defined.

Lemma timer_cb_not_ready_witness :
  timer_cb sin_table cos_table hypot_approx footprint_nowhere solver_fails
           default_params env0 node_with_map
  = Some (tt, node_with_map,
          [Assign (set_busy true node_with_map); Assign node_with_map]).
Proof.
  apply (proj1 (timer_cb_not_ready sin_table cos_table hypot_approx
                  footprint_nowhere solver_fails default_params env0
                  node_with_map eq_refl (or_intror eq_refl))).
Defined.

Lemma infinite_travel_never_plans_witness :
  exists s' t,
    spin sin_table cos_table hypot_approx footprint_nowhere solver_fails
         (mkParams 40 (1 # 2) (44 # 100) 0 true "odom") example_msgs Node_init
    = Some (tt, s', t) /\
    finalgoal_ptr_ s' = None /\ tally t = (0%nat, 0%nat).
Proof.
  eexists. eexists. split; [vm_compute; reflexivity|].
  destruct (infinite_travel_never_plans sin_table cos_table hypot_approx
              footprint_nowhere solver_fails
              (mkParams 40 (1 # 2) (44 # 100) 0 true "odom") example_msgs
              _ _ eq_refl eq_refl) as (Hg & _ & Ht).
  split; [exact Hg|exact Ht].
Defined.

Lemma finalgoal_cb_skipped_goal_is_stored_witness :
  exists s' t,
    finalgoal_cb sin_table cos_table hypot_approx footprint_nowhere solver_fails
                 default_params env0 goal_far Node_init = Some (tt, s', t) /\
    finalgoal_ptr_ s' = Some goal_far.
Proof.
  destruct (finalgoal_cb_skipped_goal_is_stored sin_table cos_table hypot_approx
              footprint_nowhere solver_fails default_params env0 goal_far
              Node_init) as (Hrun & Hgoal & _);
    [left; reflexivity|].
  eexists. eexists. split; [exact Hrun|exact Hgoal].
Defined.

(** * What every run of a callback keeps *)

Section Runs.

Variable sin : Q -> Q.
Variable cos : Q -> Q.
Variable hypot : Q -> Q -> Q.
Variable GetFootprintCells : option Footprint -> Map -> list (Z * Z).
Variable FindPathByHashmap : Map -> Path -> Z -> Z -> Q -> bool * Path.

Section Relation.

Variable P : Node -> Node -> list Event -> Prop.
Hypothesis P_stay : forall s t, P s s t.
Hypothesis P_seq :
  forall s s1 s2 t1 t2, P s s1 t1 -> P s1 s2 t2 -> P s s2 (t1 ++ t2).
Hypothesis P_path : forall s v t, P s (set_walkable_path v s) t.
Hypothesis P_busy : forall s b t, P s (set_busy b s) t.

Lemma h_ret {A : Type} (a : A) : holds P (ret a).
Proof using P_stay P_seq P_path P_busy.
  intros s a' s' t H. injection H as <- <- <-. apply P_stay.
Qed.

Lemma h_get : holds P get.
Proof using P_stay P_seq P_path P_busy.
  intros s a' s' t H. injection H as <- <- <-. apply P_stay.
Qed.

Lemma h_emit (e : Event) : holds P (emit e).
Proof using P_stay P_seq P_path P_busy.
  intros s a' s' t H. injection H as <- <- <-. apply P_stay.
Qed.

Lemma h_lift {A : Type} (o : option A) : holds P (lift o).
Proof using P_stay P_seq P_path P_busy.
  intros s a' s' t H. unfold lift in H. destruct o; [|discriminate H].
  injection H as <- <- <-. apply P_stay.
Qed.

Lemma h_undefined {A : Type} : holds P (@undefined A).
Proof using P_stay P_seq P_path P_busy.
  intros s a' s' t H. discriminate H.
Qed.

Lemma h_set_path (v : option Path) : holds P (assign (set_walkable_path v)).
Proof using P_stay P_seq P_path P_busy.
  intros s a' s' t H. injection H as <- <- <-. apply P_path.
Qed.

Lemma h_set_busy (b : bool) : holds P (assign (set_busy b)).
Proof using P_stay P_seq P_path P_busy.
  intros s a' s' t H. injection H as <- <- <-. apply P_busy.
Qed.

Lemma h_seq {A B : Type} (c : Cb A) (k : A -> Cb B) :
  holds P c -> (forall a, holds P (k a)) -> holds P (seq_cb c k).
Proof using P_stay P_seq P_path P_busy.
  intros Hc Hk s b s' t H. unfold seq_cb in H.
  destruct (c s) as [[[a s1] t1]|] eqn:Ec; [|discriminate H].
  destruct (k a s1) as [[[b' s2] t2]|] eqn:Ek; [|discriminate H].
  injection H as <- <- <-.
  eapply P_seq; [eapply Hc, Ec|eapply Hk, Ek].
Qed.

Ltac run_keeps :=
  repeat first
    [ apply h_ret | apply h_get | apply h_lift | apply h_undefined
    | apply h_emit | apply h_set_path | apply h_set_busy
    | apply h_seq; [|intros ?]
    | match goal with
      | |- holds P (if ?b then _ else _) => destruct b
      | |- holds P (match ?x with _ => _ end) => destruct x
      end ].

Lemma h_publish_status (text : string) :
  holds P (publish_robot_status_marker text).
Proof using P_stay P_seq P_path P_busy.
  unfold publish_robot_status_marker. run_keeps.
Qed.

Lemma h_generate_subgoal_cb (cfg : Params) (m : Map) (finalgoal : Point)
    (tf : Transform) :
  holds P (generate_subgoal_cb sin cos hypot cfg m finalgoal tf).
Proof using P_stay P_seq P_path P_busy.
  unfold generate_subgoal_cb. run_keeps.
Qed.

Lemma h_plan_path (cfg : Params) (m : Map) (subgoal_pt : Point) :
  holds P (plan_path FindPathByHashmap cfg m subgoal_pt).
Proof using P_stay P_seq P_path P_busy.
  unfold plan_path. run_keeps.
Qed.

Lemma h_publish_walkable_path_ptr : holds P publish_walkable_path_ptr.
Proof using P_stay P_seq P_path P_busy.
  unfold publish_walkable_path_ptr. run_keeps.
Qed.

Lemma h_update_walkable_path (f : Path -> Path) :
  holds P (update_walkable_path f).
Proof using P_stay P_seq P_path P_busy.
  unfold update_walkable_path. run_keeps.
Qed.

Lemma h_publish_found_path (env : Env) : holds P (publish_found_path env).
Proof using P_stay P_seq P_path P_busy.
  unfold publish_found_path.
  repeat first [ apply h_update_walkable_path
               | apply h_publish_walkable_path_ptr
               | apply h_seq; [|intros ?] ].
Qed.

Lemma h_timer_choose_subgoal (cfg : Params) (env : Env) (m : Map)
    (finalgoal : Point) (b1 b2 b3 b4 : bool) :
  holds P (timer_choose_subgoal sin cos hypot cfg env m finalgoal b1 b2 b3 b4).
Proof using P_stay P_seq P_path P_busy.
  unfold timer_choose_subgoal.
  repeat first
    [ apply h_generate_subgoal_cb | apply h_publish_status
    | apply h_ret | apply h_get | apply h_lift | apply h_undefined
    | apply h_seq; [|intros ?]
    | match goal with
      | |- holds P (if ?b then _ else _) => destruct b
      | |- holds P (match ?x with _ => _ end) => destruct x
      end ].
Qed.

Lemma h_timer_replan (cfg : Params) (env : Env) (m : Map)
    (finalgoal : Point) (b1 b2 b3 b4 : bool) :
  holds P (timer_replan sin cos hypot FindPathByHashmap cfg env m finalgoal
                        b1 b2 b3 b4).
Proof using P_stay P_seq P_path P_busy.
  unfold timer_replan.
  repeat first
    [ apply h_timer_choose_subgoal | apply h_plan_path
    | apply h_publish_found_path | apply h_publish_walkable_path_ptr
    | apply h_seq; [|intros ?]
    | match goal with
      | |- holds P (if ?b then _ else _) => destruct b
      end ].
Qed.

End Relation.

(** The steps of a cycle that keep a relation [P] closed under the four
    facts [Hs], [Hq], [Hp] and [Hb]; [special] is tried first, for the steps
    that write the goal. *)
Ltac frame_run P Hs Hq Hp Hb special :=
  repeat first
    [ special
    | apply (h_ret P Hs Hq Hp Hb)
    | apply (h_get P Hs Hq Hp Hb)
    | apply (h_lift P Hs Hq Hp Hb)
    | apply (h_undefined P Hs Hq Hp Hb)
    | apply (h_emit P Hs Hq Hp Hb)
    | apply (h_set_path P Hs Hq Hp Hb)
    | apply (h_set_busy P Hs Hq Hp Hb)
    | apply (h_publish_status P Hs Hq Hp Hb)
    | apply (h_publish_walkable_path_ptr P Hs Hq Hp Hb)
    | apply (h_update_walkable_path P Hs Hq Hp Hb)
    | apply (h_publish_found_path P Hs Hq Hp Hb)
    | apply (h_generate_subgoal_cb P Hs Hq Hp Hb)
    | apply (h_plan_path P Hs Hq Hp Hb)
    | apply (h_timer_replan P Hs Hq Hp Hb)
    | apply (h_seq P Hs Hq Hp Hb); [|intros ?]
    | match goal with
      | |- holds _ (if ?b then _ else _) => destruct b
      | |- holds _ (match ?x with _ => _ end) => destruct x
      end ].

Lemma same_inputs_stay (s : Node) (t : list Event) : same_inputs s s t.
Proof. repeat split. Qed.

Lemma same_inputs_seq (s s1 s2 : Node) (t1 t2 : list Event) :
  same_inputs s s1 t1 -> same_inputs s1 s2 t2 -> same_inputs s s2 (t1 ++ t2).
Proof.
  intros (H1 & H2 & H3) (H4 & H5 & H6). repeat split; congruence.
Qed.

Lemma same_inputs_path (s : Node) (v : option Path) (t : list Event) :
  same_inputs s (set_walkable_path v s) t.
Proof. repeat split. Qed.

Lemma same_inputs_busy (s : Node) (b : bool) (t : list Event) :
  same_inputs s (set_busy b s) t.
Proof. repeat split. Qed.

Lemma same_inputs_goal (v : option Point) :
  holds same_inputs (assign (set_finalgoal v)).
Proof. intros s a s' t H. injection H as <- <- <-. repeat split. Qed.

(** X18. No decision cycle writes the inputs that the other callbacks own:
    after every run of [timer_cb] and of [finalgoal_cb] the map snapshot, the
    footprint and the tracking progress are those of the node before. *)
Theorem decision_cycles_keep_inputs (cfg : Params) (env : Env) (goal : Point) :
  holds same_inputs
        (timer_cb sin cos hypot GetFootprintCells FindPathByHashmap cfg env) /\
  holds same_inputs
        (finalgoal_cb sin cos hypot GetFootprintCells FindPathByHashmap cfg env goal).
Proof.
  split.
  - unfold timer_cb.
    frame_run same_inputs same_inputs_stay same_inputs_seq same_inputs_path
              same_inputs_busy ltac:(apply same_inputs_goal).
  - unfold finalgoal_cb.
    frame_run same_inputs same_inputs_stay same_inputs_seq same_inputs_path
              same_inputs_busy ltac:(apply same_inputs_goal).
Qed.

Lemma goal_kept_stay (text : string) (s : Node) (t : list Event) :
  goal_kept_unless text s s t.
Proof. left. reflexivity. Qed.

Lemma goal_kept_seq (text : string) (s s1 s2 : Node) (t1 t2 : list Event) :
  goal_kept_unless text s s1 t1 -> goal_kept_unless text s1 s2 t2 ->
  goal_kept_unless text s s2 (t1 ++ t2).
Proof.
  intros [H1|[H1 Hin1]] [H2|[H2 Hin2]].
  - left. congruence.
  - right. split; [exact H2|]. apply in_or_app. now right.
  - right. split; [congruence|]. apply in_or_app. now left.
  - right. split; [exact H2|]. apply in_or_app. now right.
Qed.

Lemma goal_kept_path (text : string) (s : Node) (v : option Path)
    (t : list Event) :
  goal_kept_unless text s (set_walkable_path v s) t.
Proof. left. reflexivity. Qed.

Lemma goal_kept_busy (text : string) (s : Node) (b : bool) (t : list Event) :
  goal_kept_unless text s (set_busy b s) t.
Proof. left. reflexivity. Qed.

Lemma same_goal_stay (s : Node) (t : list Event) : same_goal s s t.
Proof. reflexivity. Qed.

Lemma same_goal_seq (s s1 s2 : Node) (t1 t2 : list Event) :
  same_goal s s1 t1 -> same_goal s1 s2 t2 -> same_goal s s2 (t1 ++ t2).
Proof. unfold same_goal. congruence. Qed.

Lemma same_goal_path (s : Node) (v : option Path) (t : list Event) :
  same_goal s (set_walkable_path v s) t.
Proof. reflexivity. Qed.

Lemma same_goal_busy (s : Node) (b : bool) (t : list Event) :
  same_goal s (set_busy b s) t.
Proof. reflexivity. Qed.

Lemma h_arrival_branch (cfg : Params) :
  holds (goal_kept_unless "finalgoal arrival")
        (seq_cb (assign (set_finalgoal None)) (fun _ =>
         seq_cb (emit (Publish_walkable_path (empty_path cfg))) (fun _ =>
         seq_cb (assign (set_walkable_path None)) (fun _ =>
         seq_cb (publish_robot_status_marker "finalgoal arrival") (fun _ =>
         assign (set_busy false)))))).
Proof.
  intros s a s' t H. unfold publish_robot_status_marker in H.
  rewrite seq_assign, seq_emit, seq_assign, seq_emit in H. unfold assign in H.
  injection H as _ <- <-. right. split; [reflexivity|].
  right. right. right. left. reflexivity.
Qed.

Lemma h_timeout_branch (env : Env) (text : string) :
  holds (goal_kept_unless text)
        (seq_cb (publish_robot_status_marker text) (fun _ =>
         seq_cb (assign (set_finalgoal None)) (fun _ =>
         seq_cb (update_walkable_path (with_stamp (now_stamp env))) (fun _ =>
         publish_walkable_path_ptr)))).
Proof.
  intros s a s' t H. unfold publish_robot_status_marker in H.
  rewrite seq_emit, seq_assign in H.
  assert (Hkeep : holds same_goal
            (seq_cb (update_walkable_path (with_stamp (now_stamp env)))
                    (fun _ => publish_walkable_path_ptr))).
  { frame_run same_goal same_goal_stay same_goal_seq same_goal_path
              same_goal_busy ltac:(fail). }
  destruct (seq_cb (update_walkable_path (with_stamp (now_stamp env)))
                   (fun _ => publish_walkable_path_ptr) (set_finalgoal None s))
    as [[[[] s2] t2]|] eqn:E; [|discriminate H].
  specialize (Hkeep _ _ _ _ E).
  injection H as _ <- <-.
  right. split; [exact Hkeep|]. now left.
Qed.

(** X19. A timer cycle leaves the goal in place on every path, a failed
    solver call included, except on arrival, where it clears the goal and
    publishes "finalgoal arrival". A goal-assignment cycle ends with the
    assigned goal stored, except when the solver fails, where it clears the
    goal and publishes the timeout status. *)
Theorem goal_cleared_only_on_arrival_or_timeout (cfg : Params) (env : Env)
    (goal : Point) :
  holds (goal_kept_unless "finalgoal arrival")
        (timer_cb sin cos hypot GetFootprintCells FindPathByHashmap cfg env) /\
  holds (goal_stored_unless goal
           "timeout for path planning to finalgoal, skip this finalgoal assignment.")
        (finalgoal_cb sin cos hypot GetFootprintCells FindPathByHashmap cfg env goal).
Proof.
  split.
  - unfold timer_cb.
    frame_run (goal_kept_unless "finalgoal arrival")
              (goal_kept_stay "finalgoal arrival")
              (goal_kept_seq "finalgoal arrival")
              (goal_kept_path "finalgoal arrival")
              (goal_kept_busy "finalgoal arrival")
              ltac:(apply h_arrival_branch).
  - set (text := "timeout for path planning to finalgoal, skip this finalgoal assignment."%string).
    intros s a s' t H. unfold finalgoal_cb in H. fold text in H.
    rewrite seq_assign, seq_assign in H.
    match type of H with
    | context [seq_cb get ?k ?s1] =>
        assert (Hrest : holds (goal_kept_unless text) (seq_cb get k));
        [|destruct (seq_cb get k s1) as [[[[] s2] t2]|] eqn:E;
          [|discriminate H]; specialize (Hrest _ _ _ _ E)]
    end.
    { frame_run (goal_kept_unless text) (goal_kept_stay text)
                (goal_kept_seq text) (goal_kept_path text)
                (goal_kept_busy text) ltac:(apply h_timeout_branch). }
    injection H as _ <- <-. destruct Hrest as [Hk|[Hn Hin]].
    + left. rewrite Hk. reflexivity.
    + right. split; [exact Hn|]. right. right. exact Hin.
Qed.

(** ** Solver calls and path publications *)

Lemma tally_app (t1 t2 : list Event) :
  tally (t1 ++ t2) = tally_add (tally t1) (tally t2).
Proof.
  unfold tally, tally_add, count_events. cbn [fst snd].
  rewrite !filter_app, !length_app. reflexivity.
Qed.

Lemma e_ret {A : Type} (a : A) : emits (0, 0)%nat (ret a).
Proof. intros s a' s' t H. injection H as <- <- <-. reflexivity. Qed.

Lemma e_get : emits (0, 0)%nat get.
Proof. intros s a' s' t H. injection H as <- <- <-. reflexivity. Qed.

Lemma e_lift {A : Type} (o : option A) : emits (0, 0)%nat (lift o).
Proof.
  intros s a' s' t H. unfold lift in H. destruct o; [|discriminate H].
  injection H as <- <- <-. reflexivity.
Qed.

Lemma e_undefined {A : Type} (n : nat * nat) : emits n (@undefined A).
Proof. intros s a' s' t H. discriminate H. Qed.

Lemma e_assign (f : Node -> Node) : emits (0, 0)%nat (assign f).
Proof. intros s a' s' t H. injection H as <- <- <-. reflexivity. Qed.

Lemma e_emit (e : Event) : emits (tally [e]) (emit e).
Proof. intros s a' s' t H. injection H as <- <- <-. reflexivity. Qed.

Lemma e_seq {A B : Type} (n1 n2 n : nat * nat) (c : Cb A) (k : A -> Cb B) :
  emits n1 c -> (forall a, emits n2 (k a)) -> tally_add n1 n2 = n ->
  emits n (seq_cb c k).
Proof.
  intros Hc Hk <- s b s' t H. unfold seq_cb in H.
  destruct (c s) as [[[a s1] t1]|] eqn:Ec; [|discriminate H].
  destruct (k a s1) as [[[b' s2] t2]|] eqn:Ek; [|discriminate H].
  injection H as <- <- <-. cbv beta.
  rewrite tally_app, (Hc _ _ _ _ Ec), (Hk _ _ _ _ _ Ek). reflexivity.
Qed.

Lemma e_publish_status (text : string) :
  emits (0, 0)%nat (publish_robot_status_marker text).
Proof. unfold publish_robot_status_marker. apply e_emit. Qed.

Lemma e_generate_subgoal_cb (cfg : Params) (m : Map) (finalgoal : Point)
    (tf : Transform) :
  emits (0, 0)%nat (generate_subgoal_cb sin cos hypot cfg m finalgoal tf).
Proof.
  unfold generate_subgoal_cb.
  apply (e_seq (0, 0)%nat (0, 0)%nat); [apply e_lift|intros r|reflexivity].
  apply (e_seq (0, 0)%nat (0, 0)%nat);
    [apply e_emit|intros _; apply e_ret|reflexivity].
Qed.

Lemma e_plan_path (cfg : Params) (m : Map) (subgoal_pt : Point) :
  emits (1, 0)%nat (plan_path FindPathByHashmap cfg m subgoal_pt).
Proof.
  unfold plan_path.
  apply (e_seq (0, 0)%nat (1, 0)%nat); [apply e_assign|intros _|reflexivity].
  apply (e_seq (0, 0)%nat (1, 0)%nat); [apply e_assign|intros _|reflexivity].
  apply (e_seq (1, 0)%nat (0, 0)%nat); [apply e_emit|intros _|reflexivity].
  apply (e_seq (0, 0)%nat (0, 0)%nat);
    [apply e_assign|intros _; apply e_ret|reflexivity].
Qed.

Lemma e_publish_walkable_path_ptr : emits (0, 1)%nat publish_walkable_path_ptr.
Proof.
  unfold publish_walkable_path_ptr.
  apply (e_seq (0, 0)%nat (0, 1)%nat); [apply e_get|intros s|reflexivity].
  destruct (walkable_path_ptr_ s); [apply e_emit|apply e_undefined].
Qed.

Lemma e_update_walkable_path (f : Path -> Path) :
  emits (0, 0)%nat (update_walkable_path f).
Proof.
  unfold update_walkable_path.
  apply (e_seq (0, 0)%nat (0, 0)%nat); [apply e_get|intros s|reflexivity].
  destruct (walkable_path_ptr_ s); [apply e_assign|apply e_undefined].
Qed.

Lemma e_publish_found_path (env : Env) :
  emits (0, 1)%nat (publish_found_path env).
Proof.
  unfold publish_found_path.
  apply (e_seq (0, 0)%nat (0, 1)%nat);
    [apply e_update_walkable_path|intros _|reflexivity].
  apply (e_seq (0, 0)%nat (0, 1)%nat);
    [apply e_update_walkable_path|intros _|reflexivity].
  apply e_publish_walkable_path_ptr.
Qed.

(** A subgoal from [generate_subgoal_cb], then a status. *)
Lemma e_generated_with_status (cfg : Params) (m : Map) (finalgoal : Point)
    (tf : Transform) (text : string) :
  emits (0, 0)%nat
        (seq_cb (generate_subgoal_cb sin cos hypot cfg m finalgoal tf) (fun pt =>
         seq_cb (publish_robot_status_marker text) (fun _ => ret pt))).
Proof.
  apply (e_seq (0, 0)%nat (0, 0)%nat);
    [apply e_generate_subgoal_cb|intros pt|reflexivity].
  apply (e_seq (0, 0)%nat (0, 0)%nat);
    [apply e_publish_status|intros _; apply e_ret|reflexivity].
Qed.

Lemma e_status_then_ret {A : Type} (text : string) (a : A) :
  emits (0, 0)%nat (seq_cb (publish_robot_status_marker text) (fun _ => ret a)).
Proof.
  apply (e_seq (0, 0)%nat (0, 0)%nat);
    [apply e_publish_status|intros _; apply e_ret|reflexivity].
Qed.

Lemma e_timer_choose_subgoal (cfg : Params) (env : Env) (m : Map)
    (finalgoal : Point) (b1 b2 b3 b4 : bool) :
  emits (0, 0)%nat
        (timer_choose_subgoal sin cos hypot cfg env m finalgoal b1 b2 b3 b4).
Proof.
  unfold timer_choose_subgoal.
  apply (e_seq (0, 0)%nat (0, 0)%nat); [apply e_get|intros s|reflexivity].
  destruct (Qgeb _ _); [apply e_generated_with_status|].
  destruct (walkable_path_ptr_ s) as [path|];
    [|apply e_generate_subgoal_cb].
  destruct (negb b1).
  { apply (e_seq (0, 0)%nat (0, 0)%nat); [apply e_lift|intros pt|reflexivity].
    destruct (is_sentinel pt);
      [apply e_generated_with_status|apply e_status_then_ret]. }
  destruct (negb b2 || b3).
  { destruct (poses path); [apply e_undefined|].
    apply (e_seq (0, 0)%nat (0, 0)%nat);
      [destruct (negb b2); apply e_publish_status|intros _; apply e_ret
      |reflexivity]. }
  destruct (negb b4); [apply e_generated_with_status|].
  apply e_generate_subgoal_cb.
Qed.

Lemma e_timer_replan (cfg : Params) (env : Env) (m : Map)
    (finalgoal : Point) (b1 b2 b3 b4 : bool) :
  emits (1, 1)%nat
        (timer_replan sin cos hypot FindPathByHashmap cfg env m finalgoal
                      b1 b2 b3 b4).
Proof.
  unfold timer_replan.
  apply (e_seq (0, 0)%nat (1, 1)%nat);
    [apply e_timer_choose_subgoal|intros pt|reflexivity].
  apply (e_seq (1, 0)%nat (0, 1)%nat);
    [apply e_plan_path|intros ok|reflexivity].
  destruct ok; [apply e_publish_found_path|apply e_publish_walkable_path_ptr].
Qed.

Lemma t_leaf {A : Type} (R : nat * nat -> Prop) (n : nat * nat) (c : Cb A) :
  emits n c -> R n -> tallies R c.
Proof.
  intros H Hn s a s' t Hrun. cbv beta. rewrite (H _ _ _ _ Hrun). exact Hn.
Qed.

Lemma t_seq {A B : Type} (R : nat * nat -> Prop) (n : nat * nat) (c : Cb A)
    (k : A -> Cb B) :
  emits n c ->
  (forall a, tallies (fun m => R (tally_add n m)) (k a)) ->
  tallies R (seq_cb c k).
Proof.
  intros Hc Hk s b s' t H. unfold seq_cb in H.
  destruct (c s) as [[[a s1] t1]|] eqn:Ec; [|discriminate H].
  destruct (k a s1) as [[[b' s2] t2]|] eqn:Ek; [|discriminate H].
  injection H as <- <- <-. cbv beta.
  rewrite tally_app, (Hc _ _ _ _ Ec). exact (Hk _ _ _ _ _ Ek).
Qed.

Lemma seq_assoc {A B C : Type} (c : Cb A) (k1 : A -> Cb B) (k2 : B -> Cb C)
    (s : Node) :
  seq_cb (seq_cb c k1) k2 s = seq_cb c (fun a => seq_cb (k1 a) k2) s.
Proof.
  unfold seq_cb. destruct (c s) as [[[a s1] t1]|]; [|reflexivity].
  destruct (k1 a s1) as [[[b s2] t2]|]; [|reflexivity].
  destruct (k2 b s2) as [[[c' s3] t3]|]; [|reflexivity].
  rewrite app_assoc. reflexivity.
Qed.

Lemma t_assoc {A B C : Type} (R : nat * nat -> Prop) (c : Cb A)
    (k1 : A -> Cb B) (k2 : B -> Cb C) :
  tallies R (seq_cb c (fun a => seq_cb (k1 a) k2)) ->
  tallies R (seq_cb (seq_cb c k1) k2).
Proof.
  intros H s a s' t Hrun. rewrite seq_assoc in Hrun. exact (H _ _ _ _ Hrun).
Qed.

(** The tally of one step whose count does not depend on the run. *)
Ltac count_step :=
  first
    [ apply e_ret | apply e_get | apply e_lift | apply e_assign | apply e_emit
    | apply e_publish_status | apply e_generate_subgoal_cb | apply e_plan_path
    | apply e_publish_walkable_path_ptr | apply e_update_walkable_path
    | apply e_publish_found_path | apply e_timer_replan
    | match goal with
      | |- emits _ (match ?x with _ => _ end) => destruct x; count_step
      end ].

Ltac tally_run :=
  repeat first
    [ match goal with
      | |- tallies _ (if ?b then _ else _) => destruct b
      | |- tallies _ (match ?x with _ => _ end) => destruct x
      end
    | eapply t_seq; [solve [count_step]|intros ?]
    | match goal with
      | |- tallies _ (seq_cb (seq_cb _ _) _) => apply t_assoc
      | |- tallies _ (seq_cb (if ?b then _ else _) _) => destruct b
      | |- tallies _ (seq_cb (match ?x with _ => _ end) _) => destruct x
      end
    | eapply t_leaf; [solve [count_step]|cbn; lia] ].

(** X20. Every timer cycle and every goal-assignment cycle calls the solver
    at most once and publishes a path at most once, and never calls the
    solver without publishing a path; a timer cycle that starts idle with a
    map and a goal publishes exactly one path. *)
Theorem cycles_plan_once (cfg : Params) (env : Env) (goal : Point) :
  plans_once (timer_cb sin cos hypot GetFootprintCells FindPathByHashmap cfg env) /\
  plans_once
    (finalgoal_cb sin cos hypot GetFootprintCells FindPathByHashmap cfg env goal) /\
  (forall s s' t m g,
     flag_planning_busy_ s = false ->
     localmap_ptr_ s = Some m ->
     finalgoal_ptr_ s = Some g ->
     timer_cb sin cos hypot GetFootprintCells FindPathByHashmap cfg env s
     = Some (tt, s', t) ->
     count_events is_path_publication t = 1%nat).
Proof.
  split; [|split].
  - change (tallies (fun n => (fst n <= snd n <= 1)%nat)
              (timer_cb sin cos hypot GetFootprintCells FindPathByHashmap cfg env)).
    unfold timer_cb. tally_run.
  - change (tallies (fun n => (fst n <= snd n <= 1)%nat)
              (finalgoal_cb sin cos hypot GetFootprintCells FindPathByHashmap
                            cfg env goal)).
    unfold finalgoal_cb. tally_run.
  - intros s s' t m g Hidle Hmap Hgoal H.
    unfold timer_cb in H. rewrite seq_get, Hidle, seq_assign, Hmap, Hgoal in H.
    match type of H with
    | context [seq_cb (lift ?o) ?k ?s1] =>
        assert (Hrest : tallies (fun n => snd n = 1%nat) (seq_cb (lift o) k));
        [|destruct (seq_cb (lift o) k s1) as [[[[] s2] t2]|] eqn:E;
          [|discriminate H]; specialize (Hrest _ _ _ _ E)]
    end.
    { tally_run. }
    injection H as <- <-. exact Hrest.
Qed.

End Runs.

(** * The outcome of a goal assignment *)

Section Goal_cycle.

Variable sin : Q -> Q.
Variable cos : Q -> Q.
Variable hypot : Q -> Q -> Q.
Variable GetFootprintCells : option Footprint -> Map -> list (Z * Z).
Variable FindPathByHashmap : Map -> Path -> Z -> Z -> Q -> bool * Path.

(** X22. When a goal arrives while a map is present, the footprint is safe
    and [generate_subgoal] returns the point [pt], [finalgoal_cb] calls the
    solver once, from the origin cell to the cell of [pt], on a fresh empty
    path in the path frame. If the solver succeeds, the stored and published
    path is the solver's path with every waypoint mapped by [tf_base2odom]
    and stamped with the current time, and the goal is kept. If it fails,
    the solver's path is stamped and published as it is, and the goal is
    cleared. In both cases the flag ends clear. *)
Theorem finalgoal_cb_outcome (cfg : Params) (env : Env) (goal : Point)
    (s : Node) (m : Map) (pt : Point) (markers : list Marker) :
  localmap_ptr_ s = Some m ->
  is_footprint_safe GetFootprintCells m (footprint_ptr_ s) = Some true ->
  generate_subgoal sin cos hypot cfg m goal (tf_base2odom_ env)
  = Some (pt, markers) ->
  let r := FindPathByHashmap m (mkPath Time_zero (path_frame_id_ cfg) [])
                             (origin_idx_of cfg m) (point_idx m pt)
                             (solver_timeout_ms_ cfg) in
  let found :=
    mkPath (now_stamp env) (frame_id (snd r))
           (map (tf_apply (tf_base2odom_ env)) (poses (snd r))) in
  let failed := with_stamp (now_stamp env) (snd r) in
  exists s' t,
    finalgoal_cb sin cos hypot GetFootprintCells FindPathByHashmap cfg env goal s
    = Some (tt, s', t) /\
    flag_planning_busy_ s' = false /\
    In (Call_solver (origin_idx_of cfg m) (point_idx m pt)) t /\
    tally t = (1%nat, 1%nat) /\
    (fst r = true ->
     finalgoal_ptr_ s' = Some goal /\
     walkable_path_ptr_ s' = Some found /\
     In (Publish_walkable_path found) t) /\
    (fst r = false ->
     finalgoal_ptr_ s' = None /\
     walkable_path_ptr_ s' = Some failed /\
     In (Publish_walkable_path failed) t).
Proof.
  intros Hmap Hfoot Hgen r found failed.
  destruct s as [lm wp fp fg pr fl]. cbn [localmap_ptr_ footprint_ptr_] in *.
  subst lm.
  unfold finalgoal_cb.
  rewrite seq_assign, seq_assign, seq_get.
  cbn [localmap_ptr_ footprint_ptr_ set_busy set_finalgoal
       walkable_path_ptr_ finalgoal_ptr_ tracking_progress_percentage_
       flag_planning_busy_].
  rewrite (seq_lift _ _ _ _ Hfoot).
  unfold generate_subgoal_cb, plan_path, publish_found_path,
    update_walkable_path, publish_walkable_path_ptr,
    publish_robot_status_marker.
  cbv [seq_cb lift assign emit ret get].
  rewrite Hgen. cbn [fst snd].
  fold r.
  cbn [localmap_ptr_ footprint_ptr_ set_busy set_finalgoal set_walkable_path
       walkable_path_ptr_ finalgoal_ptr_ tracking_progress_percentage_
       flag_planning_busy_ app].
  destruct r as [[|] p] eqn:Er; cbn [fst snd] in *;
    cbn [localmap_ptr_ footprint_ptr_ set_busy set_finalgoal set_walkable_path
         walkable_path_ptr_ finalgoal_ptr_ tracking_progress_percentage_
         flag_planning_busy_ app with_poses with_stamp stamp frame_id poses];
    eexists; eexists; (split; [reflexivity|]);
    (split; [reflexivity|]);
    (split; [cbn; tauto|]);
    (split; [reflexivity|]);
    split; intros Hok; try discriminate Hok;
    (split; [reflexivity|]); (split; [reflexivity|]); cbn; tauto.
Qed.

End Goal_cycle.

Lemma finalgoal_cb_outcome_witness :
  exists s' t,
    finalgoal_cb sin_table cos_table hypot_approx footprint_nowhere solver_finds
                 default_params env_shift goal_far node_with_map
    = Some (tt, s', t) /\
    finalgoal_ptr_ s' = Some goal_far /\
    walkable_path_ptr_ s'
    = Some (mkPath 7 "odom" [mkPoint (1 * (44 # 100) + 0 * 0 + 0 * 0 + 1)
                                     (0 * (44 # 100) + 1 * 0 + 0 * 0 + 0)
                                     (0 * (44 # 100) + 0 * 0 + 1 * 0 + 0);
                             mkPoint (1 * 2 + 0 * 0 + 0 * 0 + 1)
                                     (0 * 2 + 1 * 0 + 0 * 0 + 0)
                                     (0 * 2 + 0 * 0 + 1 * 0 + 0)]).
Proof.
  destruct (generate_subgoal sin_table cos_table hypot_approx default_params
              rear_map goal_far (tf_base2odom_ env_shift))
    as [[pt markers]|] eqn:Hgen; [|vm_compute in Hgen; discriminate Hgen].
  destruct (finalgoal_cb_outcome sin_table cos_table hypot_approx
              footprint_nowhere solver_finds default_params env_shift goal_far
              node_with_map rear_map pt markers eq_refl eq_refl Hgen)
    as (s' & t & Hrun & _ & _ & _ & Hok & _).
  exists s', t. split; [exact Hrun|].
  destruct (Hok eq_refl) as (Hg & Hp & _). split; [exact Hg|exact Hp].
Defined.
